(** * tencentcloud-clb-helper: the aggregation, safety guard and workflow of
      [helper.py], embedded and verified.

    The Python class [TencentCloudCLBHelper] talks to the load balancer
    through an SDK client and prints on a console.  The embedding keeps
    both explicit: the remote service is an arbitrary state machine and
    the console an arbitrary reader of markup (the variables of section
    [Helper]), and every call to the service, every console print and
    every sleep is appended to a trace. *)

From Stdlib Require Import List Ascii String ZArith Bool.
From Stdlib Require Import Sorting.Sorted Sorting.Permutation.
From Stdlib Require Import DecimalString Structures.OrderedTypeEx.
Import ListNotations.

Local Open Scope string_scope.
Local Open Scope Z_scope.
Local Open Scope list_scope.

(** ** Data of the SDK *)

(** An element of [RuleTargets.Targets] in a DescribeTargets response: one
    (instance, port) binding.  [PrivateIpAddresses] is a list, indexed with
    [[0]] by the helper. *)
Record Backend := mkBackend {
  InstanceId : string;
  InstanceName : string;
  PrivateIpAddresses : list string;
  Port : Z;
  Weight : Z
}.

Record RuleTargets := mkRuleTargets {
  LocationId : string;
  Targets : list Backend
}.

(** [Rules] and [Listeners] are compared with [None] by the helper, hence
    options. *)
Record ListenerBackend := mkListenerBackend {
  ListenerId : string;
  Rules : option (list RuleTargets)
}.

Record DescribeTargetsResponse := mkDescribeTargetsResponse {
  Listeners : option (list ListenerBackend)
}.

Record DescribeTargetsRequest := mkDescribeTargetsRequest {
  dtLoadBalancerId : string
}.

(** [Target()] as the helper fills it: [InstanceId] and [Port]; the other
    attributes keep their default [None]. *)
Record Target := mkTarget {
  tInstanceId : string;
  tPort : Z
}.

Record RsWeightRule := mkRsWeightRule {
  rListenerId : string;
  rLocationId : string;
  rWeight : Z;
  rTargets : list Target
}.

Record BatchModifyTargetWeightRequest := mkBatchModifyTargetWeightRequest {
  bmLoadBalancerId : string;
  ModifyList : list RsWeightRule
}.

Record BatchModifyTargetWeightResponse := mkBatchModifyTargetWeightResponse {
  RequestId : string
}.

(** ** The aggregated view *)

(** The dict built per private IP at lines 138-143, keys ["InstanceId"],
    ["InstanceName"], ["PrivateIpAddresses"] and ["Ports"]; a port is the
    tuple [(target.Port, target.Weight)]. *)
Record TargetInstance := mkTargetInstance {
  iInstanceId : string;
  iInstanceName : string;
  iPrivateIpAddresses : string;
  iPorts : list (Z * Z)
}.

(** ** Exceptions *)

(** One constructor per [raise] site, carrying the values interpolated in
    its message; [IndexError] and [KeyError] are the interpreter's own,
    [SDKException] is the [TencentCloudSDKException] of the client and
    [MarkupError] is the one of the console, with its text. *)
Inductive exn :=
| ListenersIsNone
| ListenersCount (printed : nat)
| RulesIsNone
| RulesCount (printed : nat)
| OthersOffline (clb_id instance_id : string)
| NoSuchInstance (clb_id instance_id : string)
| IndexError
| KeyError (key : string)
| SDKException (code : string)
| MarkupError (text : string).

Inductive result (A : Type) :=
| Ok (a : A)
| Raise (e : exn).
Arguments Ok {A} a.
Arguments Raise {A} e.

(** [str(n)] of a Python int. *)
Definition str_nat (n : nat) : string := NilZero.string_of_uint (Nat.to_uint n).
Definition str_Z (z : Z) : string := NilZero.string_of_int (Z.to_int z).

(** The text of each exception, as the f-strings of the source build it. *)
Definition message (e : exn) : string :=
  match e with
  | ListenersIsNone => "DescribeTargets 失败，Listeners 为 None"
  | ListenersCount n =>
      ("DescribeTargets 失败，监听器数量为 " ++ str_nat n ++ " != 1")%string
  | RulesIsNone => "DescribeTargets 失败，Rules 为 None"
  | RulesCount n =>
      ("DescribeTargets 失败，Rules 数量为 " ++ str_nat n ++ " != 1")%string
  | OthersOffline clb_id instance_id =>
      ("CLB " ++ clb_id ++ " 除 " ++ instance_id
         ++ " 外的其他节点都为离线，禁止操作，否则服务挂掉！")%string
  | NoSuchInstance clb_id instance_id =>
      ("CLB " ++ clb_id ++ " 的后端中没有节点 " ++ instance_id
         ++ " 的端口")%string
  | IndexError => "list index out of range"
  | KeyError k => k
  | SDKException code => code
  | MarkupError text => text
  end.

(** ** The dict [targets_by_ip] *)

(** A Python dict iterates in insertion order and [sorted] below is stable,
    so the order of the keys is part of the result: an association list,
    new keys at the end, an existing key updated in place. *)
Module Dict.

Definition t := list (string * TargetInstance).

Fixpoint contains (k : string) (d : t) : bool :=
  match d with
  | [] => false
  | (k', _) :: d' => if String.eqb k' k then true else contains k d'
  end.

Fixpoint getitem (k : string) (d : t) : option TargetInstance :=
  match d with
  | [] => None
  | (k', v) :: d' => if String.eqb k' k then Some v else getitem k d'
  end.

Fixpoint setitem (k : string) (v : TargetInstance) (d : t) : t :=
  match d with
  | [] => [(k, v)]
  | (k', v') :: d' =>
      if String.eqb k' k then (k', v) :: d' else (k', v') :: setitem k v d'
  end.

Definition keys (d : t) : list string := map fst d.
Definition values (d : t) : list TargetInstance := map snd d.

End Dict.

(** [instance["Ports"].append(p)]. *)
Definition append_port (i : TargetInstance) (p : Z * Z) : TargetInstance :=
  mkTargetInstance (iInstanceId i) (iInstanceName i) (iPrivateIpAddresses i)
                   (iPorts i ++ [p]).

(** Body of the loop of lines 135-144 for one [target]. *)
Definition group_target (target : Backend) (targets_by_ip : Dict.t)
  : result Dict.t :=
  match PrivateIpAddresses target with
  | [] => Raise IndexError
  | private_ip :: _ =>
      let targets_by_ip :=
        if negb (Dict.contains private_ip targets_by_ip)
        then Dict.setitem private_ip
               (mkTargetInstance (InstanceId target) (InstanceName target)
                                 private_ip [])
               targets_by_ip
        else targets_by_ip in
      match Dict.getitem private_ip targets_by_ip with
      | None => Raise (KeyError private_ip)
      | Some instance =>
          Ok (Dict.setitem private_ip
                (append_port instance (Port target, Weight target))
                targets_by_ip)
      end
  end.

(** The loop itself. *)
Fixpoint group_targets (targets : list Backend) (targets_by_ip : Dict.t)
  : result Dict.t :=
  match targets with
  | [] => Ok targets_by_ip
  | target :: rest =>
      match group_target target targets_by_ip with
      | Raise e => Raise e
      | Ok targets_by_ip => group_targets rest targets_by_ip
      end
  end.

(** [sorted(xs, key=key)] on string keys.  Python's sort is stable and only
    ever asks [<] of two keys; a stable sort has one possible result, which
    this insertion computes: an element goes after the keys that are
    strictly smaller and before everything else.  [String.ltb] compares
    byte by byte, which on UTF-8 is the code point order of [str]. *)
Section Sorted.
Context {A : Type} (key : A -> string).

Fixpoint insert_sorted (x : A) (l : list A) : list A :=
  match l with
  | [] => [x]
  | y :: l' =>
      if String.ltb (key y) (key x) then y :: insert_sorted x l'
      else x :: y :: l'
  end.

Definition sorted (l : list A) : list A := fold_right insert_sorted [] l.
End Sorted.

(** Lines 133-149 of [_req_describe_targets]: from the raw targets of the
    rule to the list of instances. *)
Definition aggregate_targets (targets : list Backend)
  : result (list TargetInstance) :=
  match group_targets targets [] with
  | Raise e => Raise e
  | Ok targets_by_ip => Ok (sorted iInstanceName (Dict.values targets_by_ip))
  end.

(** Lines 122-150 of [_req_describe_targets]: everything after the client
    has answered.  Line 131 interpolates [len(resp.Listeners)] in the
    message about the rules; the embedding keeps it. *)
Definition describe_targets_result (resp : DescribeTargetsResponse)
  : result (list TargetInstance * string * string) :=
  match Listeners resp with
  | None => Raise ListenersIsNone
  | Some listeners =>
      if negb (Nat.eqb (List.length listeners) 1)
      then Raise (ListenersCount (List.length listeners))
      else
        match listeners with
        | [] => Raise IndexError
        | listener :: _ =>
            match Rules listener with
            | None => Raise RulesIsNone
            | Some rules =>
                if negb (Nat.eqb (List.length rules) 1)
                then Raise (RulesCount (List.length listeners))
                else
                  match rules with
                  | [] => Raise IndexError
                  | rule :: _ =>
                      match aggregate_targets (Targets rule) with
                      | Raise e => Raise e
                      | Ok target_instances =>
                          Ok (target_instances, ListenerId listener,
                              LocationId rule)
                      end
                  end
            end
        end
  end.

(** ** The safety guard and the lookup *)

(** Inner loop of lines 227-230: [others_offline] becomes [False] at the
    first port whose weight is not 0, and the loop breaks. *)
Fixpoint scan_ports (ports : list (Z * Z)) (others_offline : bool) : bool :=
  match ports with
  | [] => others_offline
  | port :: rest =>
      if negb (snd port =? 0) then false else scan_ports rest others_offline
  end.

(** Outer loop of lines 223-232: instances bearing [instance_id] are
    skipped; the loop breaks once [others_offline] is [False]. *)
Fixpoint scan_instances (target_instances : list TargetInstance)
    (instance_id : string) (others_offline : bool) : bool :=
  match target_instances with
  | [] => others_offline
  | instance :: rest =>
      if String.eqb (iInstanceId instance) instance_id
      then scan_instances rest instance_id others_offline
      else
        let others_offline := scan_ports (iPorts instance) others_offline in
        if negb others_offline then others_offline
        else scan_instances rest instance_id others_offline
  end.

(** Loop of lines 238-242: the first instance bearing [instance_id]. *)
Fixpoint find_instance (target_instances : list TargetInstance)
    (instance_id : string) : option TargetInstance :=
  match target_instances with
  | [] => None
  | instance :: rest =>
      if String.eqb (iInstanceId instance) instance_id then Some instance
      else find_instance rest instance_id
  end.

(** The request assembled by [_req_batch_modify_target_weight]: one rule,
    one [Target] per port. *)
Definition batch_modify_request (clb_id listener_id location_id
    instance_id : string) (ports : list Z) (weight : Z)
  : BatchModifyTargetWeightRequest :=
  let target_list := map (fun port => mkTarget instance_id port) ports in
  let rule := mkRsWeightRule listener_id location_id weight target_list in
  mkBatchModifyTargetWeightRequest clb_id [rule].

(** ** Presentation *)

(** One cell of the ["Port[Weight] List"] column (lines 162-164). *)
Definition port_markup (port : Z * Z) : string :=
  (if (snd port =? 0)%Z
   then "[bold red]" ++ str_Z (fst port) ++ "[" ++ str_Z (snd port)
          ++ "][/bold red]"
   else "[green]" ++ str_Z (fst port) ++ "[" ++ str_Z (snd port)
          ++ "][/green]")%string.

(** The instance dict after lines 157-166, on the keys that the table
    reads as columns, values already through [str]. *)
Definition table_row (i : TargetInstance) : list (string * string) :=
  [ ("InstanceId", iInstanceId i);
    ("InstanceName", iInstanceName i);
    ("PrivateIpAddresses", iPrivateIpAddresses i);
    ("PortsAmount", str_nat (List.length (iPorts i)));
    ("Port[Weight] List", String.concat " " (map port_markup (iPorts i))) ].

Fixpoint row_get (column : string) (row_data : list (string * string))
  : string :=
  match row_data with
  | [] => "None"
  | (k, v) :: rest => if String.eqb k column then v else row_get column rest
  end.

Definition targets_columns : list string :=
  ["InstanceId"; "InstanceName"; "PrivateIpAddresses"; "PortsAmount";
   "Port[Weight] List"].

(** ** Effects *)

(** What the helper does to the outside, in the order it does it. *)
Inductive Event :=
| CallDescribeTargets (req : DescribeTargetsRequest)
| CallBatchModifyTargetWeight (req : BatchModifyTargetWeightRequest)
| PrintTable (title : string) (columns : list string)
             (rows : list (list string))
| PrintResponse (label : string) (resp : BatchModifyTargetWeightResponse)
| PrintText (text : string)
| Sleep (seconds : Z).

(** The mutation calls of a trace. *)
Fixpoint mutation_calls (tr : list Event)
  : list BatchModifyTargetWeightRequest :=
  match tr with
  | [] => []
  | CallBatchModifyTargetWeight req :: tr' => req :: mutation_calls tr'
  | _ :: tr' => mutation_calls tr'
  end.

Fixpoint sleeps (tr : list Event) : list Z :=
  match tr with
  | [] => []
  | Sleep s :: tr' => s :: sleeps tr'
  | _ :: tr' => sleeps tr'
  end.

(** What the remote service sends back: an answer, or a failure that the
    client turns into its own exception. *)
Inductive reply (A : Type) :=
| Answer (a : A)
| Fault (code : string).
Arguments Answer {A} a.
Arguments Fault {A} code.

Definition raise_fault {A} (r : reply A) : result A :=
  match r with
  | Answer a => Ok a
  | Fault code => Raise (SDKException code)
  end.

(** [self._console], on what [print] does with a table.  The console
    reads the title, the headers and the cells as markup before it writes
    anything: [table_error title columns rows] is the text of the
    [MarkupError] that [print] raises on a table it refuses (a closing tag
    such as [[/red]] with no tag to close is the case in point), and [None]
    on a table that it prints. *)
Class Console := {
  table_error : string -> list string -> list (list string) -> option string
}.

Section Helper.

(** The remote load balancer service: a state and the two operations the
    helper calls, each answering or failing. *)
Variable Remote : Type.
Variable DescribeTargets :
  DescribeTargetsRequest -> Remote -> reply DescribeTargetsResponse * Remote.
Variable BatchModifyTargetWeight :
  BatchModifyTargetWeightRequest -> Remote ->
  reply BatchModifyTargetWeightResponse * Remote.

(** The console of the helper. *)
Context {console : Console}.

Record World := mkWorld {
  remote : Remote;
  trace : list Event
}.

(** State and exceptions. *)
Definition M (A : Type) : Type := World -> result A * World.

Definition ret {A} (a : A) : M A := fun w => (Ok a, w).
Definition raise {A} (e : exn) : M A := fun w => (Raise e, w).
Definition bind {A B} (m : M A) (k : A -> M B) : M B :=
  fun w =>
    match m w with
    | (Ok a, w') => k a w'
    | (Raise e, w') => (Raise e, w')
    end.
Definition lift {A} (r : result A) : M A := fun w => (r, w).
Definition emit (e : Event) : M unit :=
  fun w => (Ok tt, mkWorld (remote w) (trace w ++ [e])).

Notation "x <- m ;; k" := (bind m (fun x => k))
  (at level 100, m at next level, right associativity).
Notation "m ;;; k" := (bind m (fun _ => k))
  (at level 100, right associativity).

(** [self._client.DescribeTargets(req)] *)
Definition client_DescribeTargets (req : DescribeTargetsRequest)
  : M DescribeTargetsResponse :=
  fun w =>
    let (r, g) := DescribeTargets req (remote w) in
    (raise_fault r, mkWorld g (trace w ++ [CallDescribeTargets req])).

(** [self._client.BatchModifyTargetWeight(req)] *)
Definition client_BatchModifyTargetWeight
    (req : BatchModifyTargetWeightRequest)
  : M BatchModifyTargetWeightResponse :=
  fun w =>
    let (r, g) := BatchModifyTargetWeight req (remote w) in
    (raise_fault r,
     mkWorld g (trace w ++ [CallBatchModifyTargetWeight req])).

(** [self._console.print(data_table)]: the table on the console, or
    [MarkupError] and nothing on the console. *)
Definition console_print_table (title : string) (columns : list string)
    (rows : list (list string)) : M unit :=
  match table_error title columns rows with
  | Some text => raise (MarkupError text)
  | None => emit (PrintTable title columns rows)
  end.

Definition _render_table (table_title : string)
    (table_columns : list string)
    (table_data : list (list (string * string))) : M unit :=
  console_print_table table_title table_columns
    (map (fun row_data =>
            map (fun column => row_get column row_data) table_columns)
         table_data).

Definition _req_describe_targets (clb_id : string)
  : M (list TargetInstance * string * string) :=
  let req := mkDescribeTargetsRequest clb_id in
  resp <- client_DescribeTargets req ;;
  lift (describe_targets_result resp).

Definition list_clb_targets (clb_id : string) : M unit :=
  r <- _req_describe_targets clb_id ;;
  let '(target_instances, _, _) := r in
  _render_table ("CLB 「" ++ clb_id ++ "」 后端列表")%string targets_columns
                (map table_row target_instances).

Definition _req_batch_modify_target_weight (clb_id listener_id location_id
    instance_id : string) (ports : list Z) (weight : Z)
  : M BatchModifyTargetWeightResponse :=
  client_BatchModifyTargetWeight
    (batch_modify_request clb_id listener_id location_id instance_id
                          ports weight).

(** The body ends without a [return]: the caller gets [None], written
    [None] here too; [Some resp] would be a returned response. *)
Definition _change_clb_instance_weight (clb_id instance_id : string)
    (weight : Z) : M (option BatchModifyTargetWeightResponse) :=
  r <- _req_describe_targets clb_id ;;
  let '(target_instances, listener_id, location_id) := r in
  (if weight =? 0
   then
     let others_offline := scan_instances target_instances instance_id true in
     if others_offline then raise (OthersOffline clb_id instance_id)
     else ret tt
   else ret tt) ;;;
  match find_instance target_instances instance_id with
  | None => raise (NoSuchInstance clb_id instance_id)
  | Some current_instance =>
      resp <- _req_batch_modify_target_weight clb_id listener_id location_id
                instance_id (map fst (iPorts current_instance)) weight ;;
      emit (PrintResponse "接口返回" resp) ;;;
      emit (PrintText "延时 3 秒等待生效...") ;;;
      ret None
  end.

(** [time.sleep(seconds)] *)
Definition time_sleep (seconds : Z) : M unit := emit (Sleep seconds).

Definition online_clb_instance (clb_id instance_id : string) : M unit :=
  list_clb_targets clb_id ;;;
  _change_clb_instance_weight clb_id instance_id 10 ;;;
  time_sleep 3 ;;;
  list_clb_targets clb_id.

Definition offline_clb_instance (clb_id instance_id : string) : M unit :=
  list_clb_targets clb_id ;;;
  _change_clb_instance_weight clb_id instance_id 0 ;;;
  time_sleep 3 ;;;
  list_clb_targets clb_id.

End Helper.

Arguments remote {Remote} w.
Arguments trace {Remote} w.
Arguments mkWorld {Remote} remote trace.

(** ** Listing the load balancers *)

(** An element of [LoadBalancerDetailSet], on the four attributes that
    [_req_describe_load_balancers_detail] reads. *)
Record LoadBalancerDetail := mkLoadBalancerDetail {
  LoadBalancerId : string;
  LoadBalancerName : string;
  Status : Z;
  Address : string
}.

Record DescribeLoadBalancersDetailRequest :=
  mkDescribeLoadBalancersDetailRequest {
  Limit : Z
}.

Record DescribeLoadBalancersDetailResponse :=
  mkDescribeLoadBalancersDetailResponse {
  LoadBalancerDetailSet : option (list LoadBalancerDetail)
}.

(** The [raise] of line 94, the exception of the client and what the
    render of the table raises. *)
Inductive list_exn :=
| DetailSetIsNone
| ListSDKException (code : string)
| RenderException (e : exn).

Definition list_message (e : list_exn) : string :=
  match e with
  | DetailSetIsNone => "DescribeLoadBalancersDetail 失败"
  | ListSDKException code => code
  | RenderException e => message e
  end.

(** What [list_clbs] does to the outside: its call to the service, and
    what it prints on the console. *)
Inductive ListEvent :=
| CallDescribeLoadBalancersDetail (req : DescribeLoadBalancersDetailRequest)
| OnConsole (e : Event).

(** The dict of lines 97-102, values already through [str]. *)
Definition clb_row (lb : LoadBalancerDetail) : list (string * string) :=
  [ ("LoadBalancerId", LoadBalancerId lb);
    ("LoadBalancerName", LoadBalancerName lb);
    ("Status", str_Z (Status lb));
    ("Address", Address lb) ].

Definition clbs_columns : list string :=
  ["LoadBalancerId"; "Address"; "Status"; "LoadBalancerName"].

Section Lists.

Variable Remote : Type.
Variable DescribeLoadBalancersDetail :
  DescribeLoadBalancersDetailRequest -> Remote ->
  reply DescribeLoadBalancersDetailResponse * Remote.
Context {console : Console}.

(** The result, the state of the service after the call and the events,
    in state-passing style; [inl] is a raised exception. *)
Definition _req_describe_load_balancers_detail (g : Remote)
  : (list_exn + list (list (string * string))) * Remote * list ListEvent :=
  let req := mkDescribeLoadBalancersDetailRequest 100 in
  let (r, g') := DescribeLoadBalancersDetail req g in
  (match r with
   | Fault code => inl (ListSDKException code)
   | Answer resp =>
       match LoadBalancerDetailSet resp with
       | None => inl DetailSetIsNone
       | Some lbs => inr (map clb_row lbs)
       end
   end, g', [CallDescribeLoadBalancersDetail req]).

Definition list_clbs (g : Remote)
  : (list_exn + unit) * Remote * list ListEvent :=
  match _req_describe_load_balancers_detail g with
  | (inl e, g', tr) => (inl e, g', tr)
  | (inr table_data, g', tr) =>
      match _render_table unit "CLB 列表" clbs_columns table_data
              (mkWorld tt []) with
      | (Ok _, w) => (inr tt, g', tr ++ map OnConsole (trace w))
      | (Raise e, w) =>
          (inl (RenderException e), g', tr ++ map OnConsole (trace w))
      end
  end.

End Lists.

(** ** Configuration *)

(** A regular file, by what [open(config_file, "r")] and the read inside
    [json.load] do with it: the text it holds; bytes that the encoding of
    the locale does not decode; or a file that cannot be opened (its
    permissions, say). *)
Inductive File :=
| Text (content : string)
| NotDecodable (reason : string)
| NotOpenable (strerror : string).

(** The two [raise] of [read_config]; the second message is not an
    f-string in the source and keeps its braces.  The others are the
    exceptions that the [try] of lines 39-43 lets through, as it catches
    [json.JSONDecodeError] only: [OSError] from [open], of which
    [FileNotFound] is the one for a path that is no file, and
    [UnicodeDecodeError] from the read. *)
Inductive config_exn :=
| ConfigMissing (current xdg : string)
| ConfigNotJson
| FileNotFound (path : string)
| OSError (strerror : string)
| UnicodeDecodeError (reason : string).

Definition config_message (e : config_exn) : string :=
  match e with
  | ConfigMissing current xdg =>
      ("配置文件 " ++ current ++ " 和 " ++ xdg ++ " 都不存在")%string
  | ConfigNotJson => "配置文件 {config_file!s} 不是合法的 JSON"
  | FileNotFound path => path
  | OSError strerror => strerror
  | UnicodeDecodeError reason => reason
  end.

(** What [read_config] asks of the file system. *)
Inductive FileEvent :=
| IsFile (path : string)
| OpenFile (path : string).

Section ReadConfig.

(** The parsed document and [json.load], [None] for [JSONDecodeError]. *)
Variable Json : Type.
Variable json_load : string -> option Json.

(** The two paths, as strings, and the regular files of the file
    system. *)
Variable CURRENT_DIR_CONFIG_FILE XDG_DIR_CONFIG_FILE : string.
Variable files : string -> option File.

Definition is_file (path : string) : bool :=
  match files path with Some _ => true | None => false end.

(** Lines 39-45: open the chosen file and parse it. *)
Definition load_config (config_file : string) (tr : list FileEvent)
  : (config_exn + Json) * list FileEvent :=
  match files config_file with
  | None => (inl (FileNotFound config_file), tr ++ [OpenFile config_file])
  | Some (NotOpenable strerror) =>
      (inl (OSError strerror), tr ++ [OpenFile config_file])
  | Some (NotDecodable reason) =>
      (inl (UnicodeDecodeError reason), tr ++ [OpenFile config_file])
  | Some (Text text) =>
      match json_load text with
      | None => (inl ConfigNotJson, tr ++ [OpenFile config_file])
      | Some content => (inr content, tr ++ [OpenFile config_file])
      end
  end.

Definition read_config : (config_exn + Json) * list FileEvent :=
  if is_file CURRENT_DIR_CONFIG_FILE
  then load_config CURRENT_DIR_CONFIG_FILE [IsFile CURRENT_DIR_CONFIG_FILE]
  else if is_file XDG_DIR_CONFIG_FILE
  then load_config XDG_DIR_CONFIG_FILE
         [IsFile CURRENT_DIR_CONFIG_FILE; IsFile XDG_DIR_CONFIG_FILE]
  else (inl (ConfigMissing CURRENT_DIR_CONFIG_FILE XDG_DIR_CONFIG_FILE),
        [IsFile CURRENT_DIR_CONFIG_FILE; IsFile XDG_DIR_CONFIG_FILE]).

End ReadConfig.

(** ** A simulated load balancer *)

(** A remote service that stores the response to DescribeTargets and
    applies BatchModifyTargetWeight to it, and a console: used for the
    concrete scenarios below. *)
Module Sim.

Definition Remote := DescribeTargetsResponse.

Definition describe (req : DescribeTargetsRequest) (g : Remote)
  : reply DescribeTargetsResponse * Remote := (Answer g, g).

Definition targeted (rule : RsWeightRule) (b : Backend) : bool :=
  existsb (fun t => String.eqb (tInstanceId t) (InstanceId b)
                    && (tPort t =? Port b)) (rTargets rule).

Definition apply_backend (rule : RsWeightRule) (b : Backend) : Backend :=
  if targeted rule b
  then mkBackend (InstanceId b) (InstanceName b) (PrivateIpAddresses b)
                 (Port b) (rWeight rule)
  else b.

Definition apply_rule (rule : RsWeightRule) (l : ListenerBackend)
  : ListenerBackend :=
  if String.eqb (ListenerId l) (rListenerId rule)
  then mkListenerBackend (ListenerId l)
         (option_map
            (map (fun r =>
                    if String.eqb (LocationId r) (rLocationId rule)
                    then mkRuleTargets (LocationId r)
                           (map (apply_backend rule) (Targets r))
                    else r))
            (Rules l))
  else l.

Definition modify (req : BatchModifyTargetWeightRequest) (g : Remote)
  : reply BatchModifyTargetWeightResponse * Remote :=
  (Answer (mkBatchModifyTargetWeightResponse "req-1"),
   mkDescribeTargetsResponse
     (option_map
        (map (fun l => fold_left (fun l rule => apply_rule rule l)
                                 (ModifyList req) l))
        (Listeners g))).

(** A service whose mutation fails. *)
Definition modify_fails (req : BatchModifyTargetWeightRequest) (g : Remote)
  : reply BatchModifyTargetWeightResponse * Remote :=
  (Fault "InternalError", g).

Definition single_rule (targets : list Backend) : Remote :=
  mkDescribeTargetsResponse
    (Some [mkListenerBackend "lbl-1"
             (Some [mkRuleTargets "loc-1" targets])]).

Definition world (targets : list Backend) : World Remote :=
  mkWorld (single_rule targets) [].

(** The console of the scenarios refuses a text that holds a closing tag
    with nothing to close.  A tag stands between a bracket that no odd
    number of backslashes escapes and the next closing bracket, holds no
    opening bracket and starts with a lower-case letter or one of
    [#], [/] and [@]; its name ends at the first [=].  The tag [[/name]]
    closes the last open tag of that name and [[/]] the last open tag.
    Names are compared as written, and the position in the message is that
    of the bracket, counted in characters. *)
Definition tag_start (c : Ascii.ascii) : bool :=
  let n := Ascii.nat_of_ascii c in
  ((97 <=? n) && (n <=? 122) || (n =? 35) || (n =? 47) || (n =? 64))%nat.

Definition backslash : Ascii.ascii := Ascii.ascii_of_nat 92.

(** A byte that continues a character of more than one byte. *)
Definition continuation (c : Ascii.ascii) : bool :=
  let n := Ascii.nat_of_ascii c in
  ((128 <=? n) && (n <? 192))%nat.

Fixpoint tag_name (body : string) : string :=
  match body with
  | EmptyString => EmptyString
  | String c rest =>
      if Ascii.eqb c "="%char then EmptyString else String c (tag_name rest)
  end.

(** The open tags, the last one first. *)
Fixpoint close_tag (name : string) (open_tags : list string)
  : option (list string) :=
  match open_tags with
  | [] => None
  | tag :: rest =>
      if String.eqb tag name then Some rest
      else option_map (cons tag) (close_tag name rest)
  end.

(** What a complete tag does to the open tags, or the error. *)
Definition read_tag (start : nat) (body : string) (open_tags : list string)
  : string + list string :=
  match tag_name body with
  | String "/"%char EmptyString =>
      match open_tags with
      | [] =>
          inl ("closing tag '[/]' at position " ++ str_nat start
                 ++ " has nothing to close")%string
      | _ :: rest => inr rest
      end
  | String "/"%char name =>
      match close_tag name open_tags with
      | None =>
          inl ("closing tag '[" ++ body ++ "]' at position " ++ str_nat start
                 ++ " doesn't match any open tag")%string
      | Some rest => inr rest
      end
  | name => inr (name :: open_tags)
  end.

(** [tag] is the bracket that may open a tag and what follows it so far;
    [backslashes] counts those that come right before the character. *)
Fixpoint scan_markup (text : string) (position backslashes : nat)
    (tag : option (nat * string)) (open_tags : list string)
  : option string :=
  match text with
  | EmptyString => None
  | String c rest =>
      let next := if continuation c then position else S position in
      if Ascii.eqb c "["%char then
        scan_markup rest next 0
          (if Nat.even backslashes then Some (position, EmptyString)
           else None)
          open_tags
      else
        let run := if Ascii.eqb c backslash then S backslashes else 0%nat in
        match tag with
        | None => scan_markup rest next run None open_tags
        | Some (start, body) =>
            if Ascii.eqb c "]"%char then
              match body with
              | String b _ =>
                  if tag_start b then
                    match read_tag start body open_tags with
                    | inl text => Some text
                    | inr open_tags' =>
                        scan_markup rest next 0 None open_tags'
                    end
                  else scan_markup rest next 0 None open_tags
              | EmptyString => scan_markup rest next 0 None open_tags
              end
            else
              scan_markup rest next run
                (Some (start, (body ++ String c EmptyString)%string))
                open_tags
        end
  end.

Definition markup_error (text : string) : option string :=
  scan_markup text 0 0 None [].

Fixpoint first_error (texts : list string) : option string :=
  match texts with
  | [] => None
  | text :: rest =>
      match markup_error text with
      | Some e => Some e
      | None => first_error rest
      end
  end.

(** The texts of a table in the order the console reads them: column
    after column, the header before the cells, and the title last. *)
Fixpoint table_texts (columns : list string) (rows : list (list string))
  : list string :=
  match columns with
  | [] => []
  | header :: rest =>
      header :: map (fun row => hd EmptyString row) rows
      ++ table_texts rest (map (@tl string) rows)
  end.

Definition console : Console :=
  {| table_error := fun title columns rows =>
       first_error (table_texts columns rows ++ [title]) |}.

Definition change := _change_clb_instance_weight Remote describe modify.
Definition render := @list_clb_targets Remote describe console.
Definition online := @online_clb_instance Remote describe modify console.
Definition offline := @offline_clb_instance Remote describe modify console.
Definition fetch := _req_describe_targets Remote describe.

(** The end-to-end scenario: two instances, ports 80 and 443, all at
    weight 10. *)
Definition two_instances : list Backend :=
  [ mkBackend "inst-A" "inst-A" ["10.0.0.1"] 80 10;
    mkBackend "inst-B" "inst-B" ["10.0.0.2"] 80 10;
    mkBackend "inst-A" "inst-A" ["10.0.0.1"] 443 10;
    mkBackend "inst-B" "inst-B" ["10.0.0.2"] 443 10 ].

(** A (ports at weight 0, 0) and B (ports at weight 10, 0). *)
Definition a_drained : list Backend :=
  [ mkBackend "inst-A" "a" ["10.0.0.1"] 80 0;
    mkBackend "inst-A" "a" ["10.0.0.1"] 443 0;
    mkBackend "inst-B" "b" ["10.0.0.2"] 80 10;
    mkBackend "inst-B" "b" ["10.0.0.2"] 443 0 ].

End Sim.

(** * Vocabulary of the properties *)

(** ** Order *)

(** [a] does not come after [b] in the order of their keys. *)
Definition key_le {A : Type} (key : A -> string) (a b : A) : Prop :=
  String.leb (key a) (key b) = true.

Definition name_le : TargetInstance -> TargetInstance -> Prop :=
  key_le iInstanceName.

(** [a] occurs somewhere before [b] in [l]. *)
Definition before {A : Type} (a b : A) (l : list A) : Prop :=
  exists l1 l2 l3, l = l1 ++ a :: l2 ++ b :: l3.

(** ** The raw list seen from one private IP *)

Definition has_address (t : Backend) : Prop := PrivateIpAddresses t <> [].

(** [target.PrivateIpAddresses[0] == ip], false when there is no address. *)
Definition has_first_ip (ip : string) (t : Backend) : bool :=
  match PrivateIpAddresses t with
  | [] => false
  | ip' :: _ => String.eqb ip' ip
  end.

(** The (port, weight) pairs of the records with first private IP [ip], in
    the order of the raw list. *)
Definition ports_of (ip : string) (targets : list Backend) : list (Z * Z) :=
  map (fun t => (Port t, Weight t)) (filter (has_first_ip ip) targets).

(** Position of the first record with first private IP [ip]; the length of
    the list when there is none. *)
Fixpoint first_seen (ip : string) (targets : list Backend) : nat :=
  match targets with
  | [] => 0%nat
  | t :: rest => if has_first_ip ip t then 0%nat else S (first_seen ip rest)
  end.

(** ** The state of the grouping loop *)

Definition mem (k : string) (l : list string) : bool :=
  existsb (fun k' => String.eqb k' k) l.

(** The IPs that are new with respect to [seen], in order of first
    appearance. *)
Fixpoint fresh_keys (seen : list string) (targets : list Backend)
  : list string :=
  match targets with
  | [] => []
  | t :: rest =>
      match PrivateIpAddresses t with
      | [] => fresh_keys seen rest
      | ip :: _ =>
          if mem ip seen then fresh_keys seen rest
          else ip :: fresh_keys (seen ++ [ip]) rest
      end
  end.

Definition add_ports (i : TargetInstance) (ps : list (Z * Z))
  : TargetInstance :=
  mkTargetInstance (iInstanceId i) (iInstanceName i) (iPrivateIpAddresses i)
                   (iPorts i ++ ps).

(** What [targets_by_ip[k]] holds after the loop has run over [targets]
    from the dict [d0]. *)
Definition grouped (d0 : Dict.t) (targets : list Backend) (k : string)
  : option TargetInstance :=
  match Dict.getitem k d0 with
  | Some v0 => Some (add_ports v0 (ports_of k targets))
  | None =>
      match find (has_first_ip k) targets with
      | Some t =>
          Some (mkTargetInstance (InstanceId t) (InstanceName t) k
                                 (ports_of k targets))
      | None => None
      end
  end.

(** ** Snapshots *)

(** Every port of every instance that does not bear [instance_id] has
    weight 0. *)
Definition others_all_offline (snapshot : list TargetInstance)
    (instance_id : string) : Prop :=
  forall inst, In inst snapshot -> iInstanceId inst <> instance_id ->
  forall p, In p (iPorts inst) -> snd p = 0.

(** Some instance that does not bear [instance_id] has a port whose weight
    is not 0. *)
Definition other_still_online (snapshot : list TargetInstance)
    (instance_id : string) : Prop :=
  exists inst p, In inst snapshot /\ iInstanceId inst <> instance_id /\
                 In p (iPorts inst) /\ snd p <> 0.

(** Every port of every instance has weight 0. *)
Definition all_offline (snapshot : list TargetInstance) : Prop :=
  forall inst p, In inst snapshot -> In p (iPorts inst) -> snd p = 0.

(** [inst] is the first instance of the snapshot that bears
    [instance_id]. *)
Definition first_match (snapshot : list TargetInstance)
    (instance_id : string) (inst : TargetInstance) : Prop :=
  exists l1 l2, snapshot = l1 ++ inst :: l2 /\
                iInstanceId inst = instance_id /\
                forall i, In i l1 -> iInstanceId i <> instance_id.

Definition no_match (snapshot : list TargetInstance)
    (instance_id : string) : Prop :=
  forall i, In i snapshot -> iInstanceId i <> instance_id.

(** ** Commands *)

(** The table that [list_clb_targets] prints for a snapshot. *)
Definition table_of (clb_id : string) (snapshot : list TargetInstance)
  : Event :=
  PrintTable ("CLB 「" ++ clb_id ++ "」 后端列表")%string targets_columns
    (map (fun row_data =>
            map (fun column => row_get column row_data) targets_columns)
         (map table_row snapshot)).

(** What the console answers to the print of a table: the text of its
    [MarkupError], or [None] when it prints the table. *)
Definition refusal {console : Console} (table : Event) : option string :=
  match table with
  | PrintTable title columns rows => table_error title columns rows
  | _ => None
  end.

(** The two commands that change a weight. *)
Inductive operation := Online | Offline.

Definition operation_weight (op : operation) : Z :=
  match op with Online => 10 | Offline => 0 end.

Definition run_operation (Remote : Type)
    (DescribeTargets :
       DescribeTargetsRequest -> Remote ->
       reply DescribeTargetsResponse * Remote)
    (BatchModifyTargetWeight :
       BatchModifyTargetWeightRequest -> Remote ->
       reply BatchModifyTargetWeightResponse * Remote)
    {console : Console}
    (op : operation) : string -> string -> M Remote unit :=
  match op with
  | Online => online_clb_instance Remote DescribeTargets BatchModifyTargetWeight
  | Offline =>
      offline_clb_instance Remote DescribeTargets BatchModifyTargetWeight
  end.

(** ** Load balancers used as examples *)

Module Scenarios.

(** Three instances, two of them named ["web"], the raw list giving the
    second ["web"] before ["db"]. *)
Definition same_names : list Backend :=
  [ mkBackend "ins-2" "web" ["10.0.0.2"] 80 10;
    mkBackend "ins-1" "web" ["10.0.0.1"] 80 10;
    mkBackend "ins-3" "db" ["10.0.0.3"] 80 10;
    mkBackend "ins-2" "web" ["10.0.0.2"] 443 10 ].

(** One IP reported under two identifiers and two names. *)
Definition differing_metadata : list Backend :=
  [ mkBackend "ins-1" "alpha" ["10.0.0.1"; "10.0.0.9"] 80 10;
    mkBackend "ins-2" "beta" ["10.0.0.1"] 443 0 ].

(** The snapshot of [Sim.a_drained]. *)
Definition a_drained_snapshot : list TargetInstance :=
  [ mkTargetInstance "inst-A" "a" "10.0.0.1" [(80, 0); (443, 0)];
    mkTargetInstance "inst-B" "b" "10.0.0.2" [(80, 10); (443, 0)] ].

(** The snapshot of [Sim.two_instances]. *)
Definition two_instances_snapshot : list TargetInstance :=
  [ mkTargetInstance "inst-A" "inst-A" "10.0.0.1" [(80, 10); (443, 10)];
    mkTargetInstance "inst-B" "inst-B" "10.0.0.2" [(80, 10); (443, 10)] ].

(** One identifier behind two private IPs, the second name sorting
    first. *)
Definition shared_id : list Backend :=
  [ mkBackend "ins-1" "node-b" ["10.0.0.2"] 8080 10;
    mkBackend "ins-1" "node-a" ["10.0.0.1"] 80 10;
    mkBackend "ins-2" "node-c" ["10.0.0.3"] 80 10 ].

Definition shared_id_first : TargetInstance :=
  mkTargetInstance "ins-1" "node-a" "10.0.0.1" [(80, 10)].

Definition shared_id_rest : list TargetInstance :=
  [ mkTargetInstance "ins-1" "node-b" "10.0.0.2" [(8080, 10)];
    mkTargetInstance "ins-2" "node-c" "10.0.0.3" [(80, 10)] ].

(** One identifier behind two private IPs that both serve port 80. *)
Definition shared_port : list Backend :=
  [ mkBackend "ins-1" "node-a" ["10.0.0.1"] 80 10;
    mkBackend "ins-1" "node-b" ["10.0.0.2"] 80 10;
    mkBackend "ins-1" "node-b" ["10.0.0.2"] 8080 10;
    mkBackend "ins-2" "node-c" ["10.0.0.3"] 80 10 ].

Definition shared_port_snapshot : list TargetInstance :=
  [ mkTargetInstance "ins-1" "node-a" "10.0.0.1" [(80, 10)];
    mkTargetInstance "ins-1" "node-b" "10.0.0.2" [(80, 10); (8080, 10)];
    mkTargetInstance "ins-2" "node-c" "10.0.0.3" [(80, 10)] ].

(** Everything already drained. *)
Definition all_drained : list Backend :=
  [ mkBackend "inst-A" "a" ["10.0.0.1"] 80 0 ].

Definition all_drained_snapshot : list TargetInstance :=
  [ mkTargetInstance "inst-A" "a" "10.0.0.1" [(80, 0)] ].

End Scenarios.

(** ** Traces and totals *)

(** All the ports of a list of instances, instance after instance. *)
Definition all_ports (instances : list TargetInstance) : list (Z * Z) :=
  flat_map iPorts instances.

(** The queries for targets of a trace. *)
Fixpoint fetches (tr : list Event) : list DescribeTargetsRequest :=
  match tr with
  | [] => []
  | CallDescribeTargets req :: tr' => req :: fetches tr'
  | _ :: tr' => fetches tr'
  end.

(** What the console got in a trace. *)
Fixpoint printed (tr : list Event) : list Event :=
  match tr with
  | [] => []
  | PrintTable t c r :: tr' => PrintTable t c r :: printed tr'
  | PrintResponse l r :: tr' => PrintResponse l r :: printed tr'
  | PrintText t :: tr' => PrintText t :: printed tr'
  | _ :: tr' => printed tr'
  end.

(** The row of the targets table for one instance. *)
Definition instance_cells (i : TargetInstance) : list string :=
  [ iInstanceId i; iInstanceName i; iPrivateIpAddresses i;
    str_nat (List.length (iPorts i));
    String.concat " " (map port_markup (iPorts i)) ].

(** The row of the load balancers table for one load balancer. *)
Definition clb_cells (lb : LoadBalancerDetail) : list string :=
  [ LoadBalancerId lb; Address lb; str_Z (Status lb); LoadBalancerName lb ].

(** ** Further examples *)

Module Fixtures.

(** A service that answers every query for targets with a fault. *)
Definition describe_fails (req : DescribeTargetsRequest)
    (g : Sim.Remote) : reply DescribeTargetsResponse * Sim.Remote :=
  (Fault "AuthFailure", g).

(** A load balancer with two listeners. *)
Definition two_listeners : DescribeTargetsResponse :=
  mkDescribeTargetsResponse
    (Some [mkListenerBackend "lbl-1" (Some [mkRuleTargets "loc-1" []]);
           mkListenerBackend "lbl-2" (Some [mkRuleTargets "loc-2" []])]).

(** One record with no private address, after one that has one. *)
Definition no_address : list Backend :=
  [ mkBackend "ins-1" "a" ["10.0.0.1"] 80 10;
    mkBackend "ins-2" "b" [] 80 10 ].

(** The two paths of the configuration. *)
Definition current_path : string := "/opt/helper/tc-clb-helper.json".
Definition xdg_path : string := "/home/op/.config/tc-clb-helper.json".

(** A parser that accepts one document. *)
Definition parse (text : string) : option nat :=
  if String.eqb text "{}" then Some 0%nat else None.

(** Both files, the one of the current directory malformed. *)
Definition both_files (path : string) : option File :=
  if String.eqb path current_path then Some (Text "not json")
  else if String.eqb path xdg_path then Some (Text "{}")
  else None.

(** The same file in the current directory and none in the XDG
    directory. *)
Definition only_xdg_differs (path : string) : option File :=
  if String.eqb path current_path then Some (Text "not json")
  else None.

(** A file in the current directory that its owner alone may read, and a
    valid one in the XDG directory. *)
Definition current_unreadable (path : string) : option File :=
  if String.eqb path current_path then Some (NotOpenable "Permission denied")
  else if String.eqb path xdg_path then Some (Text "{}")
  else None.

(** An instance whose name holds a closing tag, before one that is
    online. *)
Definition closing_tag_name : list Backend :=
  [ mkBackend "inst-A" "web[/red]" ["10.0.0.1"] 80 10;
    mkBackend "inst-B" "web" ["10.0.0.2"] 80 10 ].

(** Two load balancers. *)
Definition two_clbs : list LoadBalancerDetail :=
  [ mkLoadBalancerDetail "lb-1" "front" 1 "1.2.3.4";
    mkLoadBalancerDetail "lb-2" "back" 0 "5.6.7.8" ].

End Fixtures.

(** * Properties *)

(** ** The order on names *)

Lemma ltb_irrefl (s : string) : String.ltb s s = false.
Proof.
  unfold String.ltb.
  assert (H : String.compare s s = Eq)
    by (apply String_as_OT.cmp_eq; reflexivity).
  now rewrite H.
Qed.

Lemma ltb_false_leb (s1 s2 : string) :
  String.ltb s1 s2 = false -> String.leb s2 s1 = true.
Proof.
  unfold String.ltb, String.leb.
  rewrite (String.compare_antisym s2 s1).
  destruct (String.compare s1 s2); simpl; congruence.
Qed.

Lemma ltb_true_leb (s1 s2 : string) :
  String.ltb s1 s2 = true -> String.leb s1 s2 = true.
Proof.
  unfold String.ltb, String.leb.
  destruct (String.compare s1 s2); simpl; congruence.
Qed.

Lemma leb_trans (s1 s2 s3 : string) :
  String.leb s1 s2 = true -> String.leb s2 s3 = true ->
  String.leb s1 s3 = true.
Proof.
  unfold String.leb.
  destruct (String.compare s1 s2) eqn:H12; try discriminate; intros _;
    destruct (String.compare s2 s3) eqn:H23; try discriminate; intros _.
  - apply String_as_OT.cmp_eq in H12, H23. subst.
    assert (H : String.compare s3 s3 = Eq)
      by (apply String_as_OT.cmp_eq; reflexivity).
    now rewrite H.
  - apply String_as_OT.cmp_eq in H12. subst. now rewrite H23.
  - apply String_as_OT.cmp_eq in H23. subst. now rewrite H12.
  - apply String_as_OT.cmp_lt in H12, H23.
    assert (H : String.compare s1 s3 = Lt)
      by (apply String_as_OT.cmp_lt; eapply String_as_OT.lt_trans; eauto).
    now rewrite H.
Qed.

(** ** Relative order in a list *)

Section Before.
Context {A : Type}.
Implicit Types (a b x : A) (l : list A).

Lemma before_nil a b : ~ before a b [].
Proof. intros (l1 & l2 & l3 & H). destruct l1; discriminate. Qed.

Lemma before_cons_inv a b x l :
  before a b (x :: l) -> (a = x /\ In b l) \/ before a b l.
Proof.
  intros (l1 & l2 & l3 & H). destruct l1 as [|y l1]; simpl in H.
  - injection H as -> ->. left. split; auto.
    apply in_or_app. right. now left.
  - injection H as -> ->. right. now exists l1, l2, l3.
Qed.

Lemma before_head a b l : In b l -> before a b (a :: l).
Proof.
  intros H. apply in_split in H as (l2 & l3 & ->). now exists [], l2, l3.
Qed.

Lemma before_tail a b x l : before a b l -> before a b (x :: l).
Proof. intros (l1 & l2 & l3 & ->). now exists (x :: l1), l2, l3. Qed.

Lemma before_in a b l : before a b l -> In a l /\ In b l.
Proof.
  intros (l1 & l2 & l3 & ->). split.
  - apply in_or_app. right. now left.
  - apply in_or_app. right. right. apply in_or_app. right. now left.
Qed.

Lemma before_map {B : Type} (f : A -> B) a b l :
  before a b l -> before (f a) (f b) (map f l).
Proof.
  intros (l1 & l2 & l3 & ->).
  exists (map f l1), (map f l2), (map f l3).
  now rewrite !map_app; simpl; rewrite map_app.
Qed.

End Before.

(** ** [sorted] *)

Section SortedFacts.
Context {A : Type} (key : A -> string).
Implicit Types (a b x : A) (l : list A).

Lemma insert_sorted_perm x l : Permutation (x :: l) (insert_sorted key x l).
Proof.
  induction l as [|y l IH]; simpl; auto.
  destruct (String.ltb (key y) (key x)); auto.
  eapply perm_trans; [apply perm_swap|]. now constructor.
Qed.

Lemma sorted_perm l : Permutation l (sorted key l).
Proof.
  induction l as [|x l IH]; simpl; auto.
  eapply perm_trans; [|apply insert_sorted_perm]. now constructor.
Qed.

Lemma sorted_in a l : In a (sorted key l) <-> In a l.
Proof.
  split; apply Permutation_in;
    [apply Permutation_sym|]; apply sorted_perm.
Qed.

Lemma insert_sorted_strongly x l :
  StronglySorted (key_le key) l ->
  StronglySorted (key_le key) (insert_sorted key x l).
Proof.
  induction 1 as [|y l Hs IH Hall]; simpl.
  - repeat constructor.
  - destruct (String.ltb (key y) (key x)) eqn:Hlt.
    + constructor; auto.
      rewrite Forall_forall in *. intros z Hz.
      apply (Permutation_in _ (Permutation_sym (insert_sorted_perm x l)))
        in Hz.
      destruct Hz as [<-|Hz]; [now apply ltb_true_leb | auto].
    + apply ltb_false_leb in Hlt.
      constructor; [now constructor|].
      constructor; auto.
      rewrite Forall_forall in *. intros z Hz.
      eapply leb_trans; [exact Hlt | now apply Hall].
Qed.

Lemma sorted_strongly l : StronglySorted (key_le key) (sorted key l).
Proof.
  induction l; simpl; [constructor | now apply insert_sorted_strongly].
Qed.

(** Stability: equal keys are never swapped. *)
Lemma insert_sorted_before x l a b :
  before a b (insert_sorted key x l) -> key a = key b ->
  (a = x /\ In b l) \/ before a b l.
Proof.
  induction l as [|y l IH]; simpl; intros Hb Hk.
  - apply before_cons_inv in Hb as [[_ []]|Hb]. now apply before_nil in Hb.
  - destruct (String.ltb (key y) (key x)) eqn:Hlt.
    + apply before_cons_inv in Hb as [[-> Hin]|Hb].
      * right. apply before_head.
        apply (Permutation_in _ (Permutation_sym (insert_sorted_perm x l)))
          in Hin.
        destruct Hin as [<-|Hin]; auto.
        rewrite Hk, ltb_irrefl in Hlt. discriminate.
      * destruct (IH Hb Hk) as [[-> Hin]|Hb'].
        -- left. split; auto using in_cons.
        -- right. now apply before_tail.
    + apply before_cons_inv in Hb as [[-> Hin]|Hb]; auto.
Qed.

Lemma sorted_before l a b :
  before a b (sorted key l) -> key a = key b -> before a b l.
Proof.
  induction l as [|x l IH]; simpl; intros Hb Hk; auto.
  apply insert_sorted_before in Hb as [[-> Hin]|Hb]; auto.
  - apply before_head. now apply sorted_in.
  - apply before_tail. auto.
Qed.
End SortedFacts.

(** ** The raw list seen from one private IP *)

Lemma mem_true_iff k l : mem k l = true <-> In k l.
Proof.
  unfold mem. rewrite existsb_exists. split.
  - intros (x & Hin & Heq). apply String.eqb_eq in Heq. now subst.
  - intros H. exists k. split; auto. apply String.eqb_refl.
Qed.

Lemma mem_false_iff k l : mem k l = false <-> ~ In k l.
Proof.
  rewrite <- mem_true_iff. destruct (mem k l); split; congruence.
Qed.

Lemma find_split {A : Type} (p : A -> bool) (l : list A) (x : A) :
  find p l = Some x ->
  exists l1 l2, l = l1 ++ x :: l2 /\ p x = true /\
                (forall y, In y l1 -> p y = false).
Proof.
  induction l as [|y l IH]; simpl; [discriminate|].
  destruct (p y) eqn:Hy.
  - intros [= ->]. exists [], l. repeat split; auto. intros ? [].
  - intros H. destruct (IH H) as (l1 & l2 & -> & Hx & Hl1).
    exists (y :: l1), l2. repeat split; auto.
    intros z [<-|Hz]; auto.
Qed.

Module DictFacts.
Import Dict.

Lemma contains_keys k d : contains k d = mem k (keys d).
Proof.
  induction d as [|[k' v] d IH]; simpl; auto.
  destruct (String.eqb k' k); auto.
Qed.

Lemma getitem_none k d : getitem k d = None <-> contains k d = false.
Proof.
  induction d as [|[k' v] d IH]; simpl; [tauto|].
  destruct (String.eqb k' k); auto. split; discriminate.
Qed.

Lemma keys_setitem k v d :
  keys (setitem k v d) = if contains k d then keys d else keys d ++ [k].
Proof.
  induction d as [|[k' v'] d IH]; simpl; auto.
  destruct (String.eqb k' k); simpl; auto.
  rewrite IH. now destruct (contains k d).
Qed.

Lemma getitem_setitem k v d k' :
  getitem k' (setitem k v d)
  = if String.eqb k k' then Some v else getitem k' d.
Proof.
  induction d as [|[k0 v0] d IH]; simpl.
  - reflexivity.
  - destruct (String.eqb_spec k0 k) as [->|Hk]; simpl.
    + destruct (String.eqb k k'); auto.
    + destruct (String.eqb_spec k0 k') as [->|Hk']; auto.
      destruct (String.eqb_spec k k'); congruence.
Qed.

Lemma getitem_in k v d : NoDup (keys d) -> In (k, v) d -> getitem k d = Some v.
Proof.
  induction d as [|[k0 v0] d IH]; simpl; [tauto|].
  intros Hnd [H|H]; inversion Hnd; subst.
  - injection H as -> ->. now rewrite String.eqb_refl.
  - destruct (String.eqb_spec k0 k) as [->|]; auto.
    exfalso. apply H2. change k with (fst (k, v)). now apply in_map.
Qed.

End DictFacts.

(** ** The grouping loop *)

Section Grouping.
Import Dict DictFacts.

Lemma contains_setitem k v d : contains k (setitem k v d) = true.
Proof.
  induction d as [|[k' v'] d IH]; simpl.
  - now rewrite String.eqb_refl.
  - destruct (String.eqb k' k) eqn:E; simpl; rewrite E; auto.
Qed.

Lemma add_ports_nil i : add_ports i [] = i.
Proof. destruct i. unfold add_ports. simpl. now rewrite app_nil_r. Qed.

Lemma add_ports_append i p ps :
  add_ports (append_port i p) ps = add_ports i (p :: ps).
Proof.
  unfold add_ports, append_port. simpl. now rewrite <- app_assoc.
Qed.

Lemma ports_of_cons k t rest :
  ports_of k (t :: rest)
  = if has_first_ip k t then (Port t, Weight t) :: ports_of k rest
    else ports_of k rest.
Proof. unfold ports_of. simpl. now destruct (has_first_ip k t). Qed.

(** A record without a private address stops the loop. *)
Lemma group_target_no_address t d0 :
  PrivateIpAddresses t = [] -> group_target t d0 = Raise IndexError.
Proof. intros H. unfold group_target. now rewrite H. Qed.

(** One turn of the loop. *)
Lemma group_target_spec t d0 ip ips :
  PrivateIpAddresses t = ip :: ips ->
  exists d1,
    group_target t d0 = Ok d1 /\
    keys d1 = (if mem ip (keys d0) then keys d0 else keys d0 ++ [ip]) /\
    forall k,
      getitem k d1 =
      if String.eqb ip k
      then Some (append_port
                   match getitem ip d0 with
                   | Some v => v
                   | None => mkTargetInstance (InstanceId t)
                               (InstanceName t) ip []
                   end (Port t, Weight t))
      else getitem k d0.
Proof.
  intros Hip. unfold group_target. rewrite Hip.
  destruct (contains ip d0) eqn:Hc; simpl.
  - destruct (getitem ip d0) eqn:Hg.
    + eexists. split; [reflexivity|]. split.
      * now rewrite keys_setitem, Hc, <- contains_keys, Hc.
      * intros k. now rewrite getitem_setitem.
    + apply getitem_none in Hg. congruence.
  - rewrite getitem_setitem, String.eqb_refl.
    eexists. split; [reflexivity|]. split.
    + now rewrite keys_setitem, contains_setitem, keys_setitem,
        <- contains_keys, Hc.
    + intros k. rewrite !getitem_setitem.
      apply getitem_none in Hc. rewrite Hc.
      now destruct (String.eqb ip k).
Qed.

(** The whole loop, from any dict: it never raises on records that have
    an address, the keys are the old ones followed by the new IPs in
    order of first appearance, and each entry is [grouped]. *)
Lemma group_targets_spec targets :
  Forall (fun t => PrivateIpAddresses t <> []) targets ->
  forall d0,
  exists d,
    group_targets targets d0 = Ok d /\
    keys d = keys d0 ++ fresh_keys (keys d0) targets /\
    forall k, getitem k d = grouped d0 targets k.
Proof.
  induction 1 as [|t rest Ht _ IH]; intros d0.
  - exists d0. simpl. split; auto. split; [now rewrite app_nil_r|].
    intros k. unfold grouped, ports_of. simpl.
    destruct (getitem k d0); auto. now rewrite add_ports_nil.
  - destruct (PrivateIpAddresses t) as [|ip ips] eqn:Hip; [congruence|].
    destruct (group_target_spec t d0 ip ips Hip) as (d1 & Hd1 & Hk1 & Hg1).
    destruct (IH d1) as (d & Hd & Hk & Hg).
    exists d. simpl. rewrite Hd1. split; auto. split.
    + rewrite Hk, Hk1, Hip.
      destruct (mem ip (keys d0)); auto.
      now rewrite <- app_assoc.
    + intros k. rewrite Hg. unfold grouped.
      rewrite Hg1, ports_of_cons. simpl find.
      assert (Hf : has_first_ip k t = String.eqb ip k)
        by (unfold has_first_ip; now rewrite Hip).
      rewrite Hf.
      destruct (String.eqb_spec ip k) as [->|Hne];
        destruct (getitem k d0); try rewrite add_ports_append; auto.
Qed.

Lemma keys_nodup targets seen :
  NoDup seen -> NoDup (seen ++ fresh_keys seen targets).
Proof.
  revert seen. induction targets as [|t rest IH]; intros seen Hnd; simpl.
  - now rewrite app_nil_r.
  - destruct (PrivateIpAddresses t) as [|ip ips]; auto.
    destruct (mem ip seen) eqn:Hm; auto.
    change (ip :: fresh_keys (seen ++ [ip]) rest)
      with ([ip] ++ fresh_keys (seen ++ [ip]) rest).
    rewrite app_assoc. apply IH.
    apply NoDup_app; auto.
    + repeat constructor. intros [].
    + intros x Hx [<-|[]]. now apply mem_false_iff in Hm.
Qed.

End Grouping.

(** ** Order of first appearance *)

Lemma fresh_keys_not_seen targets :
  forall seen k, In k (fresh_keys seen targets) -> ~ In k seen.
Proof.
  induction targets as [|t rest IH]; intros seen k; simpl; [tauto|].
  destruct (PrivateIpAddresses t) as [|ip ips]; auto.
  destruct (mem ip seen) eqn:Hm; auto.
  intros [<-|Hin].
  - now apply mem_false_iff.
  - intros Hs. apply (IH _ _ Hin). apply in_or_app. now left.
Qed.

Lemma has_first_ip_eq k t ip ips :
  PrivateIpAddresses t = ip :: ips -> has_first_ip k t = String.eqb ip k.
Proof. intros H. unfold has_first_ip. now rewrite H. Qed.

Lemma has_first_ip_hd k t :
  has_first_ip k t = true <-> hd_error (PrivateIpAddresses t) = Some k.
Proof.
  unfold has_first_ip. destruct (PrivateIpAddresses t) as [|ip ips]; simpl.
  - split; discriminate.
  - rewrite String.eqb_eq. split; congruence.
Qed.

Lemma fresh_keys_before targets :
  forall seen ka kb,
    before ka kb (fresh_keys seen targets) ->
    (first_seen ka targets < first_seen kb targets)%nat.
Proof.
  induction targets as [|t rest IH]; intros seen ka kb Hb; simpl in *.
  - now apply before_nil in Hb.
  - destruct (PrivateIpAddresses t) as [|ip ips] eqn:Hip.
    + unfold has_first_ip. rewrite Hip. apply -> Nat.succ_lt_mono. eauto.
    + rewrite !(has_first_ip_eq _ t ip ips Hip).
      destruct (mem ip seen) eqn:Hm.
      * destruct (before_in _ _ _ Hb) as [Ha Hb'].
        apply fresh_keys_not_seen in Ha, Hb'.
        apply mem_true_iff in Hm.
        destruct (String.eqb_spec ip ka) as [<-|_]; [tauto|].
        destruct (String.eqb_spec ip kb) as [<-|_]; [tauto|].
        apply -> Nat.succ_lt_mono. eauto.
      * assert (Hnew : forall k, In k (fresh_keys (seen ++ [ip]) rest) ->
                                  String.eqb ip k = false).
        { intros k Hk. apply fresh_keys_not_seen in Hk.
          destruct (String.eqb_spec ip k) as [<-|]; auto.
          exfalso. apply Hk. apply in_or_app. right. now left. }
        apply before_cons_inv in Hb as [[-> Hin]|Hb].
        -- rewrite String.eqb_refl, (Hnew _ Hin). apply Nat.lt_0_succ.
        -- destruct (before_in _ _ _ Hb) as [Ha Hb'].
           rewrite (Hnew _ Ha), (Hnew _ Hb').
           apply -> Nat.succ_lt_mono. eauto.
Qed.

(** ** The aggregation as a whole *)

Section Aggregation.
Import Dict DictFacts.

Variable targets : list Backend.
Hypothesis addresses : Forall has_address targets.

(** The aggregation returns, and what it returns is the sorted values of
    a dict described by [grouped] and [fresh_keys]. *)
Lemma aggregate_targets_ok :
  exists d,
    aggregate_targets targets = Ok (sorted iInstanceName (values d)) /\
    NoDup (keys d) /\
    keys d = fresh_keys [] targets /\
    forall k, getitem k d = grouped [] targets k.
Proof.
  destruct (group_targets_spec targets addresses []) as (d & Hd & Hk & Hg).
  exists d. unfold aggregate_targets. rewrite Hd.
  simpl in Hk. repeat split; auto.
  rewrite Hk. apply (keys_nodup targets []). constructor.
Qed.

Lemma grouped_ip d v k :
  (forall k, getitem k d = grouped [] targets k) ->
  getitem k d = Some v -> iPrivateIpAddresses v = k.
Proof.
  intros Hg H. rewrite Hg in H. unfold grouped in H. simpl in H.
  destruct (find (has_first_ip k) targets); [|discriminate].
  now injection H as <-.
Qed.

Lemma values_getitem d v :
  NoDup (keys d) ->
  (forall k, getitem k d = grouped [] targets k) ->
  In v (values d) -> getitem (iPrivateIpAddresses v) d = Some v.
Proof.
  intros Hnd Hg Hin. unfold values in Hin.
  apply in_map_iff in Hin as ([k v'] & Hv & Hin). simpl in Hv. subst v'.
  pose proof (getitem_in k v d Hnd Hin) as H.
  now rewrite (grouped_ip d v k Hg H).
Qed.

Lemma values_ips d :
  NoDup (keys d) ->
  (forall k, getitem k d = grouped [] targets k) ->
  map iPrivateIpAddresses (values d) = keys d.
Proof.
  intros Hnd Hg. unfold values, keys. rewrite map_map.
  apply map_ext_in. intros [k v] Hin. simpl.
  eapply grouped_ip; eauto. now apply getitem_in.
Qed.

End Aggregation.

(** The private IPs of the sorted values: the distinct first IPs of the
    raw list, each once. *)
Lemma sorted_values_ips (targets : list Backend) (d : Dict.t) :
  NoDup (Dict.keys d) ->
  (forall k, Dict.getitem k d = grouped [] targets k) ->
  NoDup (map iPrivateIpAddresses (sorted iInstanceName (Dict.values d))) /\
  forall ip,
    In ip (map iPrivateIpAddresses (sorted iInstanceName (Dict.values d)))
    <-> exists t, In t targets /\ hd_error (PrivateIpAddresses t) = Some ip.
Proof.
  intros Hnd Hg.
  assert (Hperm : Permutation (Dict.keys d)
                    (map iPrivateIpAddresses
                       (sorted iInstanceName (Dict.values d)))).
  { rewrite <- (values_ips targets d Hnd Hg).
    apply Permutation_map, sorted_perm. }
  split.
  - eapply Permutation_NoDup; eauto.
  - intros ip. split.
    + intros Hin. apply (Permutation_in _ (Permutation_sym Hperm)) in Hin.
      apply mem_true_iff in Hin.
      rewrite <- DictFacts.contains_keys in Hin.
      destruct (Dict.getitem ip d) as [v|] eqn:Hget.
      * rewrite Hg in Hget. unfold grouped in Hget. simpl in Hget.
        destruct (find (has_first_ip ip) targets) as [t|] eqn:Hf;
          [|discriminate].
        apply find_some in Hf as [Hin' Hip]. exists t. split; auto.
        now apply has_first_ip_hd.
      * apply DictFacts.getitem_none in Hget. congruence.
    + intros (t & Hin & Hhd). apply has_first_ip_hd in Hhd.
      apply (Permutation_in _ Hperm). apply mem_true_iff.
      rewrite <- DictFacts.contains_keys.
      destruct (Dict.contains ip d) eqn:Hc; auto.
      apply DictFacts.getitem_none in Hc. rewrite Hg in Hc.
      unfold grouped in Hc. simpl in Hc.
      destruct (find (has_first_ip ip) targets) eqn:Hf; [discriminate|].
      pose proof (find_none _ _ Hf t Hin). congruence.
Qed.

(** The first element that satisfies [p] is what [find] returns. *)
Lemma find_first {A : Type} (p : A -> bool) (l1 l2 : list A) (x : A) :
  (forall y, In y l1 -> p y = false) -> p x = true ->
  find p (l1 ++ x :: l2) = Some x.
Proof.
  intros Hl1 Hx. induction l1 as [|y l1 IH]; simpl.
  - now rewrite Hx.
  - rewrite (Hl1 y) by now left. apply IH. intros z Hz. apply Hl1.
    now right.
Qed.

(** A value stored under a key is one of the values. *)
Lemma getitem_values (k : string) (v : TargetInstance) (d : Dict.t) :
  Dict.getitem k d = Some v -> In v (Dict.values d).
Proof.
  induction d as [|[k' v'] d IH]; simpl; [discriminate|].
  destruct (String.eqb k' k).
  - intros [= ->]. now left.
  - intros H. right. now apply IH.
Qed.

(** ** Claims on the aggregation *)

(** C3. On every raw target list (each record with at least one private
    address) the aggregation returns a list with exactly one instance per
    distinct first private IP of the list: no IP twice, an IP present if
    and only if some record has it first.  The ports of an instance are
    the (port, weight) pairs of the records with that first IP, in the
    order of the raw list.  Neither the instance identifier nor the name
    takes part in the grouping. *)
Theorem aggregate_groups_by_first_ip (targets : list Backend) :
  Forall has_address targets ->
  exists out,
    aggregate_targets targets = Ok out /\
    NoDup (map iPrivateIpAddresses out) /\
    (forall ip, In ip (map iPrivateIpAddresses out) <->
                exists t, In t targets /\
                          hd_error (PrivateIpAddresses t) = Some ip) /\
    (forall i, In i out ->
               iPorts i = ports_of (iPrivateIpAddresses i) targets).
Proof.
  intros Ha.
  destruct (aggregate_targets_ok targets Ha) as (d & Hout & Hnd & Hk & Hg).
  exists (sorted iInstanceName (Dict.values d)). split; auto.
  assert (Hperm : Permutation (Dict.keys d)
                    (map iPrivateIpAddresses
                       (sorted iInstanceName (Dict.values d)))).
  { rewrite <- (values_ips targets d Hnd Hg).
    apply Permutation_map, sorted_perm. }
  split; [|split].
  - eapply Permutation_NoDup; eauto.
  - intros ip. split.
    + intros Hin. apply (Permutation_in _ (Permutation_sym Hperm)) in Hin.
      apply mem_true_iff in Hin.
      rewrite <- DictFacts.contains_keys in Hin.
      destruct (Dict.getitem ip d) as [v|] eqn:Hget.
      * rewrite Hg in Hget. unfold grouped in Hget. simpl in Hget.
        destruct (find (has_first_ip ip) targets) as [t|] eqn:Hf;
          [|discriminate].
        apply find_some in Hf as [Hin' Hip]. exists t. split; auto.
        now apply has_first_ip_hd.
      * apply DictFacts.getitem_none in Hget. congruence.
    + intros (t & Hin & Hhd). apply has_first_ip_hd in Hhd.
      apply (Permutation_in _ Hperm). apply mem_true_iff.
      rewrite <- DictFacts.contains_keys.
      destruct (Dict.contains ip d) eqn:Hc; auto.
      apply DictFacts.getitem_none in Hc. rewrite Hg in Hc.
      unfold grouped in Hc. simpl in Hc.
      destruct (find (has_first_ip ip) targets) eqn:Hf; [discriminate|].
      pose proof (find_none _ _ Hf t Hin). congruence.
  - intros i Hin. apply sorted_in in Hin.
    pose proof (values_getitem targets d i Hnd Hg Hin) as Hget.
    rewrite Hg in Hget. unfold grouped in Hget. simpl in Hget.
    destruct (find (has_first_ip (iPrivateIpAddresses i)) targets);
      [|discriminate].
    injection Hget as <-. reflexivity.
Qed.

(** C3 at the two-instance scenario. *)
Lemma aggregate_groups_by_first_ip_witness :
  Forall has_address Sim.two_instances /\
  exists out,
    aggregate_targets Sim.two_instances = Ok out /\
    NoDup (map iPrivateIpAddresses out) /\
    (forall ip, In ip (map iPrivateIpAddresses out) <->
                exists t, In t Sim.two_instances /\
                          hd_error (PrivateIpAddresses t) = Some ip) /\
    (forall i, In i out ->
               iPorts i = ports_of (iPrivateIpAddresses i) Sim.two_instances).
Proof.
  assert (H : Forall has_address Sim.two_instances)
    by (repeat constructor; discriminate).
  split; [exact H | exact (aggregate_groups_by_first_ip _ H)].
Defined.

(** C4. The aggregated list holds the groups of the raw list, one
    instance for each first private IP that a record has and no IP twice.
    It is sorted ascending by display name under the byte (code point)
    order of strings, which distinguishes case, and the sort is stable: of
    two instances with the same name, the one that comes first in the
    output is the one whose IP appears first in the raw list. *)
Theorem aggregate_sorted_by_name_stable (targets : list Backend) :
  Forall has_address targets ->
  exists out,
    aggregate_targets targets = Ok out /\
    NoDup (map iPrivateIpAddresses out) /\
    (forall ip, In ip (map iPrivateIpAddresses out) <->
                exists t, In t targets /\
                          hd_error (PrivateIpAddresses t) = Some ip) /\
    StronglySorted name_le out /\
    (forall a b,
        before a b out -> iInstanceName a = iInstanceName b ->
        (first_seen (iPrivateIpAddresses a) targets
         < first_seen (iPrivateIpAddresses b) targets)%nat).
Proof.
  intros Ha.
  destruct (aggregate_targets_ok targets Ha) as (d & Hout & Hnd & Hk & Hg).
  destruct (sorted_values_ips targets d Hnd Hg) as (Hips & Hmem).
  exists (sorted iInstanceName (Dict.values d)).
  split; auto. split; auto. split; auto. split.
  - apply (sorted_strongly iInstanceName).
  - intros a b Hb Hname.
    apply sorted_before in Hb; auto.
    apply (before_map iPrivateIpAddresses) in Hb.
    rewrite (values_ips targets d Hnd Hg), Hk in Hb.
    now apply fresh_keys_before in Hb.
Qed.

(** C4 at [Scenarios.same_names]. *)
Lemma aggregate_sorted_by_name_stable_witness :
  Forall has_address Scenarios.same_names /\
  exists out,
    aggregate_targets Scenarios.same_names = Ok out /\
    NoDup (map iPrivateIpAddresses out) /\
    (forall ip, In ip (map iPrivateIpAddresses out) <->
                exists t, In t Scenarios.same_names /\
                          hd_error (PrivateIpAddresses t) = Some ip) /\
    StronglySorted name_le out /\
    (forall a b,
        before a b out -> iInstanceName a = iInstanceName b ->
        (first_seen (iPrivateIpAddresses a) Scenarios.same_names
         < first_seen (iPrivateIpAddresses b) Scenarios.same_names)%nat).
Proof.
  assert (H : Forall has_address Scenarios.same_names)
    by (repeat constructor; discriminate).
  split; [exact H | exact (aggregate_sorted_by_name_stable _ H)].
Defined.

(** The order at [Scenarios.same_names]: ["db"] first, then the two
    ["web"] in the order of their first records. *)
Example aggregate_same_names :
  aggregate_targets Scenarios.same_names
  = Ok [ mkTargetInstance "ins-3" "db" "10.0.0.3" [(80, 10)];
         mkTargetInstance "ins-2" "web" "10.0.0.2" [(80, 10); (443, 10)];
         mkTargetInstance "ins-1" "web" "10.0.0.1" [(80, 10)] ].
Proof. reflexivity. Qed.

(** Upper case sorts before lower case. *)
Example sorted_case_sensitive :
  sorted (fun s => s) ["b"; "a"; "B"; "A"] = ["A"; "B"; "a"; "b"].
Proof. reflexivity. Qed.

(** C9. Take a record of the raw list that is the first, in the order of
    the list, with its first private IP.  The aggregated list holds an
    instance for that IP, with the instance identifier and the display
    name of this record, and it holds no other instance for that IP: the
    identifiers and names of the later records with that IP are not kept.
    Conversely every aggregated instance is the one of the first record
    with its IP. *)
Theorem aggregate_metadata_of_first_record (targets : list Backend) :
  Forall has_address targets ->
  exists out,
    aggregate_targets targets = Ok out /\
    (forall l1 t l2 ip,
        targets = l1 ++ t :: l2 ->
        has_first_ip ip t = true ->
        (forall t', In t' l1 -> has_first_ip ip t' = false) ->
        exists i,
          In i out /\
          iPrivateIpAddresses i = ip /\
          iInstanceId i = InstanceId t /\
          iInstanceName i = InstanceName t /\
          forall i', In i' out -> iPrivateIpAddresses i' = ip -> i' = i) /\
    (forall i, In i out ->
      exists l1 t l2,
        targets = l1 ++ t :: l2 /\
        has_first_ip (iPrivateIpAddresses i) t = true /\
        (forall t', In t' l1 ->
                    has_first_ip (iPrivateIpAddresses i) t' = false) /\
        iInstanceId i = InstanceId t /\
        iInstanceName i = InstanceName t).
Proof.
  intros Ha.
  destruct (aggregate_targets_ok targets Ha) as (d & Hout & Hnd & Hk & Hg).
  exists (sorted iInstanceName (Dict.values d)). split; auto. split.
  - intros l1 t l2 ip Hsplit Ht Hl1.
    pose proof (Hg ip) as Hget. unfold grouped in Hget. simpl in Hget.
    rewrite Hsplit, (find_first _ l1 l2 t Hl1 Ht), <- Hsplit in Hget.
    eexists. split; [|split; [|split; [|split]]].
    + apply sorted_in. exact (getitem_values _ _ _ Hget).
    + reflexivity.
    + reflexivity.
    + reflexivity.
    + intros i' Hin' Hip. apply sorted_in in Hin'.
      pose proof (values_getitem targets d i' Hnd Hg Hin') as Hget'.
      rewrite Hip, Hget in Hget'. now injection Hget' as <-.
  - intros i Hin. apply sorted_in in Hin.
    pose proof (values_getitem targets d i Hnd Hg Hin) as Hget.
    rewrite Hg in Hget. unfold grouped in Hget. simpl in Hget.
    destruct (find (has_first_ip (iPrivateIpAddresses i)) targets)
      as [t|] eqn:Hf; [|discriminate].
    apply find_split in Hf as (l1 & l2 & Hsplit & Ht & Hl1).
    exists l1, t, l2. repeat split; auto.
    + injection Hget as <-. reflexivity.
    + injection Hget as <-. reflexivity.
Qed.

(** C9 at [Scenarios.differing_metadata]. *)
Lemma aggregate_metadata_of_first_record_witness :
  Forall has_address Scenarios.differing_metadata /\
  exists out,
    aggregate_targets Scenarios.differing_metadata = Ok out /\
    (forall l1 t l2 ip,
        Scenarios.differing_metadata = l1 ++ t :: l2 ->
        has_first_ip ip t = true ->
        (forall t', In t' l1 -> has_first_ip ip t' = false) ->
        exists i,
          In i out /\
          iPrivateIpAddresses i = ip /\
          iInstanceId i = InstanceId t /\
          iInstanceName i = InstanceName t /\
          forall i', In i' out -> iPrivateIpAddresses i' = ip -> i' = i) /\
    (forall i, In i out ->
      exists l1 t l2,
        Scenarios.differing_metadata = l1 ++ t :: l2 /\
        has_first_ip (iPrivateIpAddresses i) t = true /\
        (forall t', In t' l1 ->
                    has_first_ip (iPrivateIpAddresses i) t' = false) /\
        iInstanceId i = InstanceId t /\
        iInstanceName i = InstanceName t).
Proof.
  assert (H : Forall has_address Scenarios.differing_metadata)
    by (repeat constructor; discriminate).
  split; [exact H | exact (aggregate_metadata_of_first_record _ H)].
Defined.

Example aggregate_differing_metadata :
  aggregate_targets Scenarios.differing_metadata
  = Ok [ mkTargetInstance "ins-1" "alpha" "10.0.0.1" [(80, 10); (443, 0)] ].
Proof. reflexivity. Qed.

(** ** The guard and the lookup, as properties of the snapshot *)

Lemma scan_ports_true ports :
  scan_ports ports true = true <-> forall p, In p ports -> snd p = 0.
Proof.
  induction ports as [|p ports IH]; simpl.
  - split; auto. intros _ ? [].
  - destruct (Z.eqb_spec (snd p) 0) as [Hz|Hz]; simpl.
    + rewrite IH. split; [intros H q [<-|Hq]; auto | auto].
    + split; [discriminate|]. intros H. exfalso. apply Hz, H. now left.
Qed.

Lemma scan_instances_true snapshot instance_id :
  scan_instances snapshot instance_id true = true
  <-> others_all_offline snapshot instance_id.
Proof.
  unfold others_all_offline.
  induction snapshot as [|inst rest IH]; simpl.
  - split; auto. intros _ ? [].
  - destruct (String.eqb_spec (iInstanceId inst) instance_id) as [He|He].
    + rewrite IH. split.
      * intros H i [<-|Hi]; [intros Hn; congruence | now apply H].
      * intros H i Hi. apply H. now right.
    + destruct (scan_ports (iPorts inst) true) eqn:Hp; simpl.
      * rewrite IH. rewrite scan_ports_true in Hp. split.
        -- intros H i [<-|Hi]; [intros _; exact Hp | now apply H].
        -- intros H i Hi. apply H. now right.
      * split; [discriminate|]. intros H.
        assert (Ht : scan_ports (iPorts inst) true = true)
          by (apply scan_ports_true; intros p Hin;
              apply (H inst); auto; now left).
        congruence.
Qed.

Lemma scan_instances_false snapshot instance_id :
  scan_instances snapshot instance_id true = false
  <-> other_still_online snapshot instance_id.
Proof.
  unfold other_still_online.
  induction snapshot as [|inst rest IH]; simpl.
  - split; [discriminate|]. intros (? & ? & [] & _).
  - destruct (String.eqb_spec (iInstanceId inst) instance_id) as [He|He].
    + rewrite IH. split.
      * intros (i & p & Hi & H). exists i, p. split; [now right | auto].
      * intros (i & p & [<-|Hi] & Hne & H); [congruence|].
        exists i, p. auto.
    + destruct (scan_ports (iPorts inst) true) eqn:Hp; simpl.
      * rewrite IH. split.
        -- intros (i & p & Hi & H). exists i, p. split; [now right | auto].
        -- intros (i & p & [<-|Hi] & Hne & Hin & Hw).
           ++ exfalso. apply Hw. eapply scan_ports_true; eauto.
           ++ exists i, p. auto.
      * split; auto. intros _.
        assert (Hex : exists p, In p (iPorts inst) /\ snd p <> 0).
        { clear -Hp. induction (iPorts inst) as [|p ports IH];
            simpl in Hp; [discriminate|].
          destruct (Z.eqb_spec (snd p) 0) as [Hz|Hz]; simpl in Hp.
          - destruct (IH Hp) as (q & Hq & Hw). exists q.
            split; [now right | auto].
          - exists p. split; [now left | auto]. }
        destruct Hex as (p & Hin & Hw). exists inst, p.
        split; [now left | auto].
Qed.

Lemma find_instance_some snapshot instance_id inst :
  find_instance snapshot instance_id = Some inst
  <-> first_match snapshot instance_id inst.
Proof.
  unfold first_match. induction snapshot as [|i rest IH]; simpl.
  - split; [discriminate|]. intros (l1 & l2 & H & _).
    destruct l1; discriminate.
  - destruct (String.eqb_spec (iInstanceId i) instance_id) as [He|He].
    + split.
      * intros [= ->]. exists [], rest. repeat split; auto; intros ? [].
      * intros (l1 & l2 & H & Hid & Hno). destruct l1 as [|j l1].
        -- simpl in H. now injection H as ->.
        -- simpl in H. injection H as -> _. exfalso.
           apply (Hno j); [now left | assumption].
    + rewrite IH. split.
      * intros (l1 & l2 & -> & Hid & Hno). exists (i :: l1), l2.
        repeat split; auto; intros j [<-|Hj]; auto.
      * intros (l1 & l2 & H & Hid & Hno). destruct l1 as [|j l1].
        -- simpl in H. injection H as -> _. congruence.
        -- simpl in H. injection H as -> ->. exists l1, l2.
           repeat split; auto; intros k Hk; apply Hno; now right.
Qed.

Lemma find_instance_none snapshot instance_id :
  find_instance snapshot instance_id = None <-> no_match snapshot instance_id.
Proof.
  unfold no_match. induction snapshot as [|i rest IH]; simpl.
  - split; auto; intros _ ? [].
  - destruct (String.eqb_spec (iInstanceId i) instance_id) as [He|He].
    + split; [discriminate|]. intros H. exfalso.
      apply (H i); [now left | assumption].
    + rewrite IH. split.
      * intros H j [<-|Hj]; auto.
      * intros H j Hj. apply H. now right.
Qed.

Lemma mutation_calls_app tr1 tr2 :
  mutation_calls (tr1 ++ tr2) = mutation_calls tr1 ++ mutation_calls tr2.
Proof.
  induction tr1 as [|e tr1 IH]; simpl; auto.
  destruct e; simpl; now rewrite IH.
Qed.

(** ** Runs of the weight changer *)

Section Runs.

Variable Remote : Type.
Variable DescribeTargets :
  DescribeTargetsRequest -> Remote -> reply DescribeTargetsResponse * Remote.
Variable BatchModifyTargetWeight :
  BatchModifyTargetWeightRequest -> Remote ->
  reply BatchModifyTargetWeightResponse * Remote.
Context {console : Console}.

Local Abbreviation fetch := (_req_describe_targets Remote DescribeTargets).
Local Abbreviation change :=
  (_change_clb_instance_weight Remote DescribeTargets BatchModifyTargetWeight).
Local Abbreviation render := (list_clb_targets Remote DescribeTargets).

(** The fetch is one call to the service, whatever comes back. *)
Lemma fetch_run clb_id w :
  fetch clb_id w =
  (match fst (DescribeTargets (mkDescribeTargetsRequest clb_id) (remote w)) with
   | Answer resp => describe_targets_result resp
   | Fault code => Raise (SDKException code)
   end,
   mkWorld (snd (DescribeTargets (mkDescribeTargetsRequest clb_id) (remote w)))
           (trace w ++ [CallDescribeTargets (mkDescribeTargetsRequest clb_id)])).
Proof.
  unfold _req_describe_targets, bind, client_DescribeTargets, lift.
  destruct (DescribeTargets _ _) as [[resp|code] g]; reflexivity.
Qed.

Lemma fetch_trace clb_id w r w1 :
  fetch clb_id w = (r, w1) ->
  trace w1 = trace w ++ [CallDescribeTargets (mkDescribeTargetsRequest clb_id)].
Proof. rewrite fetch_run. now intros [= _ <-]. Qed.

(** The weight changer after a fetch that raised. *)
Lemma change_fetch_raise clb_id instance_id weight w e w1 :
  fetch clb_id w = (Raise e, w1) ->
  change clb_id instance_id weight w = (Raise e, w1).
Proof.
  intros H. unfold _change_clb_instance_weight, bind. now rewrite H.
Qed.

(** The weight changer after a fetch that returned a snapshot. *)
Lemma change_run clb_id instance_id weight w snapshot lid loc w1 :
  fetch clb_id w = (Ok (snapshot, lid, loc), w1) ->
  change clb_id instance_id weight w =
  if (weight =? 0) && scan_instances snapshot instance_id true
  then (Raise (OthersOffline clb_id instance_id), w1)
  else
    match find_instance snapshot instance_id with
    | None => (Raise (NoSuchInstance clb_id instance_id), w1)
    | Some cur =>
        let req := batch_modify_request clb_id lid loc instance_id
                     (map fst (iPorts cur)) weight in
        match BatchModifyTargetWeight req (remote w1) with
        | (Answer resp, g) =>
            (Ok None,
             mkWorld g (trace w1 ++
                          [CallBatchModifyTargetWeight req;
                           PrintResponse "接口返回" resp;
                           PrintText "延时 3 秒等待生效..."]))
        | (Fault code, g) =>
            (Raise (SDKException code),
             mkWorld g (trace w1 ++ [CallBatchModifyTargetWeight req]))
        end
    end.
Proof.
  intros H. unfold _change_clb_instance_weight, bind at 1. rewrite H.
  unfold bind at 1.
  assert (Hguard :
    (if weight =? 0
     then if scan_instances snapshot instance_id true
          then raise Remote (OthersOffline clb_id instance_id)
          else ret Remote tt
     else ret Remote tt) w1
    = if (weight =? 0) && scan_instances snapshot instance_id true
      then (Raise (OthersOffline clb_id instance_id), w1)
      else (Ok tt, w1)).
  { destruct (weight =? 0); simpl; auto.
    now destruct (scan_instances snapshot instance_id true). }
  rewrite Hguard.
  destruct ((weight =? 0) && scan_instances snapshot instance_id true); auto.
  destruct (find_instance snapshot instance_id) as [cur|]; auto.
  unfold bind, _req_batch_modify_target_weight,
    client_BatchModifyTargetWeight, emit, ret. simpl.
  destruct (BatchModifyTargetWeight _ (remote w1)) as [[resp|code] g];
    simpl; auto.
  now rewrite <- !app_assoc.
Qed.

(** C1. On a drain request the weight changer raises the safety-guard error
    if and only if every port of every instance of the fresh snapshot that
    does not bear the target identifier has weight 0; when it raises it, no
    mutation call has been made; and when some other instance keeps a port
    with a weight that is not 0 the guard does not fire. *)
Theorem drain_guard_fires_iff_others_offline
    clb_id instance_id w snapshot lid loc w1 :
  fetch clb_id w = (Ok (snapshot, lid, loc), w1) ->
  let run := change clb_id instance_id 0 w in
  (fst run = Raise (OthersOffline clb_id instance_id)
   <-> others_all_offline snapshot instance_id) /\
  (fst run = Raise (OthersOffline clb_id instance_id) ->
   mutation_calls (trace (snd run)) = mutation_calls (trace w)) /\
  (other_still_online snapshot instance_id ->
   fst run <> Raise (OthersOffline clb_id instance_id)).
Proof.
  intros Hf run. subst run. rewrite (change_run _ _ _ _ _ _ _ _ Hf).
  simpl andb.
  destruct (scan_instances snapshot instance_id true) eqn:Hs.
  - simpl. split; [|split].
    + split; auto. intros _. now apply scan_instances_true.
    + intros _. rewrite (fetch_trace _ _ _ _ Hf), mutation_calls_app.
      simpl. now rewrite app_nil_r.
    + intros Ho. apply scan_instances_false in Ho. congruence.
  - assert (Hno : ~ others_all_offline snapshot instance_id).
    { intros Ha. apply scan_instances_true in Ha. congruence. }
    destruct (find_instance snapshot instance_id) as [cur|].
    + cbv zeta.
      destruct (BatchModifyTargetWeight _ (remote w1)) as [[resp|code] g];
        simpl; (split; [split; [discriminate | tauto]
                       | split; [discriminate | intros _; discriminate]]).
    + simpl. split; [split; [discriminate | tauto]
                    | split; [discriminate | intros _; discriminate]].
Qed.

(** C2. A weight change that passes the guard and finds the instance makes
    exactly one mutation call.  Its single rule carries the desired weight
    and one target per port recorded for the located instance in the
    snapshot, in that order; the weights the ports have in the snapshot do
    not appear in it, so an instance already at the desired weight gets
    the same call. *)
Theorem change_issues_one_uniform_mutation
    clb_id instance_id weight w snapshot lid loc w1 inst :
  fetch clb_id w = (Ok (snapshot, lid, loc), w1) ->
  (weight = 0 -> other_still_online snapshot instance_id) ->
  first_match snapshot instance_id inst ->
  mutation_calls (trace (snd (change clb_id instance_id weight w)))
  = mutation_calls (trace w)
    ++ [mkBatchModifyTargetWeightRequest clb_id
          [mkRsWeightRule lid loc weight
             (map (fun p => mkTarget instance_id (fst p)) (iPorts inst))]].
Proof.
  intros Hf Hguard Hm. rewrite (change_run _ _ _ _ _ _ _ _ Hf).
  assert (Hg : (weight =? 0) && scan_instances snapshot instance_id true
               = false).
  { destruct (Z.eqb_spec weight 0) as [Hz|Hz]; auto. simpl.
    now apply scan_instances_false, Hguard. }
  rewrite Hg. apply find_instance_some in Hm. rewrite Hm. cbv zeta.
  unfold batch_modify_request. rewrite map_map.
  destruct (BatchModifyTargetWeight _ (remote w1)) as [[resp|code] g];
    simpl; rewrite (fetch_trace _ _ _ _ Hf), <- app_assoc,
      mutation_calls_app; reflexivity.
Qed.

(** C10, amended.  When several instances of the snapshot bear the
    requested identifier, the one the weight changer works on is the first
    in the order of the snapshot, which is the name-sorted output of the
    fetch.  The mutation call carries one rule whose targets are built
    from the ports of that instance alone, one pair of the identifier and
    a port number per port.  A port recorded under a later instance with
    the same identifier is among the targets exactly when the first
    instance records that port number too. *)
Theorem change_targets_first_match_only
    clb_id instance_id weight w l1 inst l2 lid loc w1 :
  fetch clb_id w = (Ok (l1 ++ inst :: l2, lid, loc), w1) ->
  iInstanceId inst = instance_id ->
  (forall i, In i l1 -> iInstanceId i <> instance_id) ->
  (weight = 0 -> other_still_online (l1 ++ inst :: l2) instance_id) ->
  exists rule,
    mutation_calls (trace (snd (change clb_id instance_id weight w)))
    = mutation_calls (trace w)
      ++ [mkBatchModifyTargetWeightRequest clb_id [rule]] /\
    rTargets rule
    = map (fun p => mkTarget instance_id (fst p)) (iPorts inst) /\
    forall other q,
      In other l2 -> iInstanceId other = instance_id ->
      In q (iPorts other) ->
      (In (mkTarget instance_id (fst q)) (rTargets rule)
       <-> In (fst q) (map fst (iPorts inst))).
Proof.
  intros Hf Hid Hno Hguard.
  assert (Hm : find_instance (l1 ++ inst :: l2) instance_id = Some inst)
    by (apply find_instance_some; exists l1, l2; auto).
  rewrite (change_run _ _ _ _ _ _ _ _ Hf).
  assert (Hg : (weight =? 0)
               && scan_instances (l1 ++ inst :: l2) instance_id true = false).
  { destruct (Z.eqb_spec weight 0) as [Hz|Hz]; auto. simpl.
    now apply scan_instances_false, Hguard. }
  rewrite Hg, Hm. cbv zeta. unfold batch_modify_request. rewrite map_map.
  eexists. split; [|split].
  - destruct (BatchModifyTargetWeight _ (remote w1)) as [[resp|code] g];
      simpl; rewrite (fetch_trace _ _ _ _ Hf), <- app_assoc,
        mutation_calls_app; reflexivity.
  - reflexivity.
  - simpl. intros other q _ _ _. split.
    + intros Hin. apply in_map_iff in Hin as (p & Hp & Hin).
      injection Hp as Hp. rewrite <- Hp. now apply in_map.
    + intros Hin. apply in_map_iff in Hin as (p & Hp & Hin).
      apply in_map_iff. exists p. split; auto. now rewrite Hp.
Qed.

(** C5, amended.  A weight change whose identifier matches no instance of
    the fresh snapshot raises and makes no mutation call.  It raises the
    not-found error, except on a drain request when every port of every
    instance of the snapshot has weight 0: the guard comes first and the
    error is the safety-guard one. *)
Theorem change_absent_instance_raises
    clb_id instance_id weight w snapshot lid loc w1 :
  fetch clb_id w = (Ok (snapshot, lid, loc), w1) ->
  no_match snapshot instance_id ->
  let run := change clb_id instance_id weight w in
  mutation_calls (trace (snd run)) = mutation_calls (trace w) /\
  (weight = 0 /\ all_offline snapshot ->
   fst run = Raise (OthersOffline clb_id instance_id)) /\
  (~ (weight = 0 /\ all_offline snapshot) ->
   fst run = Raise (NoSuchInstance clb_id instance_id)).
Proof.
  intros Hf Hno run. subst run. rewrite (change_run _ _ _ _ _ _ _ _ Hf).
  apply find_instance_none in Hno as Hfind. rewrite Hfind.
  assert (Htr : mutation_calls (trace w1) = mutation_calls (trace w)).
  { rewrite (fetch_trace _ _ _ _ Hf), mutation_calls_app. simpl.
    now rewrite app_nil_r. }
  assert (Hall : scan_instances snapshot instance_id true = true
                 <-> all_offline snapshot).
  { rewrite scan_instances_true. unfold others_all_offline, all_offline.
    split; intros H.
    - intros inst p Hi Hp. exact (H inst Hi (Hno inst Hi) p Hp).
    - intros inst Hi _ p Hp. exact (H inst p Hi Hp). }
  destruct (Z.eqb_spec weight 0) as [Hz|Hz]; simpl.
  - destruct (scan_instances snapshot instance_id true); simpl.
    + split; auto. split; auto. intros Hn. exfalso. apply Hn.
      split; auto. now apply Hall.
    + split; auto. split; auto. intros [_ Ha]. apply Hall in Ha.
      discriminate.
  - split; auto. split; auto. intros [Hw _]. contradiction.
Qed.

(** A weight change that succeeds: the fetch answered with a well-formed
    topology, the instance was found, the service acknowledged the mutation
    built from that fetch, and nothing is returned. *)
Lemma change_success clb_id instance_id weight w r w' :
  change clb_id instance_id weight w = (Ok r, w') ->
  r = None /\
  exists resp g1 snapshot lid loc cur ack,
    DescribeTargets (mkDescribeTargetsRequest clb_id) (remote w)
    = (Answer resp, g1) /\
    describe_targets_result resp = Ok (snapshot, lid, loc) /\
    find_instance snapshot instance_id = Some cur /\
    BatchModifyTargetWeight
      (batch_modify_request clb_id lid loc instance_id
         (map fst (iPorts cur)) weight) g1
    = (Answer ack, remote w') /\
    trace w'
    = trace w
      ++ [CallDescribeTargets (mkDescribeTargetsRequest clb_id);
          CallBatchModifyTargetWeight
            (batch_modify_request clb_id lid loc instance_id
               (map fst (iPorts cur)) weight);
          PrintResponse "接口返回" ack;
          PrintText "延时 3 秒等待生效..."].
Proof.
  destruct (fetch clb_id w) as [[[[snapshot lid] loc]|e] w1] eqn:Hf.
  - rewrite (change_run _ _ _ _ _ _ _ _ Hf).
    destruct ((weight =? 0) && scan_instances snapshot instance_id true);
      [discriminate|].
    destruct (find_instance snapshot instance_id) as [cur|] eqn:Hcur;
      [|discriminate].
    cbv zeta.
    destruct (BatchModifyTargetWeight _ (remote w1)) as [[ack|code] g]
      eqn:Hb; [|discriminate].
    intros [= <- <-]. split; auto.
    rewrite fetch_run in Hf.
    destruct (DescribeTargets _ (remote w)) as [[resp|code] g1] eqn:Hd;
      simpl in Hf; [|discriminate].
    injection Hf as Hres <-. simpl in Hb.
    exists resp, g1, snapshot, lid, loc, cur, ack.
    repeat split; auto. simpl. now rewrite <- app_assoc.
  - rewrite (change_fetch_raise _ _ _ _ _ _ Hf). discriminate.
Qed.

(** C7, amended.  A weight change that succeeds returns no value to its
    caller ([None]); the acknowledgement of the mutation call goes to the
    console, followed by the notice about the delay.  The events of the
    run are the fetch, the mutation call and these two prints. *)
Theorem change_prints_acknowledgement
    clb_id instance_id weight w r w' :
  change clb_id instance_id weight w = (Ok r, w') ->
  r = None /\
  exists resp g1 req ack,
    DescribeTargets (mkDescribeTargetsRequest clb_id) (remote w)
    = (Answer resp, g1) /\
    BatchModifyTargetWeight req g1 = (Answer ack, remote w') /\
    trace w'
    = trace w
      ++ [CallDescribeTargets (mkDescribeTargetsRequest clb_id);
          CallBatchModifyTargetWeight req;
          PrintResponse "接口返回" ack;
          PrintText "延时 3 秒等待生效..."].
Proof.
  intros H. apply change_success in H
    as (Hr & resp & g1 & snapshot & lid & loc & cur & ack
        & Hd & _ & _ & Hb & Htr).
  split; auto. exists resp, g1. eexists. exists ack. eauto.
Qed.

(** The render: a fetch of its own, then the table, which the console
    prints or refuses. *)
Lemma render_run clb_id w :
  render clb_id w =
  match fetch clb_id w with
  | (Ok (snapshot, _, _), w1) =>
      match refusal (table_of clb_id snapshot) with
      | Some text => (Raise (MarkupError text), w1)
      | None =>
          (Ok tt,
           mkWorld (remote w1) (trace w1 ++ [table_of clb_id snapshot]))
      end
  | (Raise e, w1) => (Raise e, w1)
  end.
Proof.
  unfold list_clb_targets, bind.
  destruct (fetch clb_id w) as [[[[snapshot lid] loc]|e] w1];
    [|reflexivity].
  unfold _render_table, console_print_table, refusal, table_of.
  destruct (table_error _ _ _); reflexivity.
Qed.

Lemma render_success clb_id w u w' :
  render clb_id w = (Ok u, w') ->
  exists resp snapshot lid loc,
    DescribeTargets (mkDescribeTargetsRequest clb_id) (remote w)
    = (Answer resp, remote w') /\
    describe_targets_result resp = Ok (snapshot, lid, loc) /\
    trace w'
    = trace w ++ [CallDescribeTargets (mkDescribeTargetsRequest clb_id);
                  table_of clb_id snapshot].
Proof.
  rewrite render_run, fetch_run.
  destruct (DescribeTargets _ (remote w)) as [[resp|code] g] eqn:Hd;
    cbn [fst snd raise_fault]; [|discriminate].
  destruct (describe_targets_result resp) as [[[snapshot lid] loc]|e]
    eqn:Hres; [|discriminate].
  destruct (refusal (table_of clb_id snapshot)); [discriminate|].
  intros [= _ <-]. exists resp, snapshot, lid, loc. simpl.
  repeat split; auto. now rewrite <- app_assoc.
Qed.

(** Both commands are the same four steps, the weight apart. *)
Lemma run_operation_steps op clb_id instance_id w :
  run_operation Remote DescribeTargets BatchModifyTargetWeight
                op clb_id instance_id w =
  match render clb_id w with
  | (Raise e, w1) => (Raise e, w1)
  | (Ok _, w1) =>
      match change clb_id instance_id (operation_weight op) w1 with
      | (Raise e, w2) => (Raise e, w2)
      | (Ok _, w2) =>
          render clb_id (mkWorld (remote w2) (trace w2 ++ [Sleep 3]))
      end
  end.
Proof.
  destruct op; simpl;
    unfold online_clb_instance, offline_clb_instance, bind at 1;
    (destruct (render clb_id w) as [[u|e] w1]; [|reflexivity]);
    unfold bind at 1;
    match goal with
    | |- context [change clb_id instance_id ?k w1] =>
        destruct (change clb_id instance_id k w1) as [[r|e] w2]
    end; reflexivity.
Qed.

(** C8, amended.  An invocation of the online command (weight 10) or of
    the offline command (weight 0) in which no step raises has exactly
    this sequence of effects: the fetch and the table of the first render;
    the weight changer with a fetch of its own, whose answer and not the
    first one is what the mutation is built from, the mutation call and
    the two prints; a sleep of 3; the fetch and the table of the second
    render; nothing after it.  When the first render or the weight changer
    raises, the command ends there with that exception. *)
Theorem operation_effects op clb_id instance_id w r w' :
  run_operation Remote DescribeTargets BatchModifyTargetWeight
                op clb_id instance_id w = (r, w') ->
  let q := mkDescribeTargetsRequest clb_id in
  (r = Ok tt ->
   exists resp1 g1 s1 lid1 loc1 resp2 g2 s2 lid2 loc2 cur ack g3
          resp3 s3 lid3 loc3,
     DescribeTargets q (remote w) = (Answer resp1, g1) /\
     describe_targets_result resp1 = Ok (s1, lid1, loc1) /\
     DescribeTargets q g1 = (Answer resp2, g2) /\
     describe_targets_result resp2 = Ok (s2, lid2, loc2) /\
     find_instance s2 instance_id = Some cur /\
     BatchModifyTargetWeight
       (batch_modify_request clb_id lid2 loc2 instance_id
          (map fst (iPorts cur)) (operation_weight op)) g2
     = (Answer ack, g3) /\
     DescribeTargets q g3 = (Answer resp3, remote w') /\
     describe_targets_result resp3 = Ok (s3, lid3, loc3) /\
     trace w'
     = trace w
       ++ [CallDescribeTargets q;
           table_of clb_id s1;
           CallDescribeTargets q;
           CallBatchModifyTargetWeight
             (batch_modify_request clb_id lid2 loc2 instance_id
                (map fst (iPorts cur)) (operation_weight op));
           PrintResponse "接口返回" ack;
           PrintText "延时 3 秒等待生效...";
           Sleep 3;
           CallDescribeTargets q;
           table_of clb_id s3]) /\
  (forall e w1, render clb_id w = (Raise e, w1) -> r = Raise e /\ w' = w1) /\
  (forall u w1 e w2,
      render clb_id w = (Ok u, w1) ->
      change clb_id instance_id (operation_weight op) w1 = (Raise e, w2) ->
      r = Raise e /\ w' = w2).
Proof.
  rewrite run_operation_steps. intros Hrun q. split; [|split].
  - intros ->.
    destruct (render clb_id w) as [[u1|e1] w1] eqn:H1; [|discriminate].
    destruct (change clb_id instance_id (operation_weight op) w1)
      as [[r2|e2] w2] eqn:H2; [|discriminate].
    apply render_success in H1 as (resp1 & s1 & lid1 & loc1 & D1 & R1 & T1).
    apply change_success in H2
      as (_ & resp2 & g2 & s2 & lid2 & loc2 & cur & ack
          & D2 & R2 & F2 & B2 & T2).
    apply render_success in Hrun
      as (resp3 & s3 & lid3 & loc3 & D3 & R3 & T3).
    simpl in D3, T3.
    exists resp1, (remote w1), s1, lid1, loc1, resp2, g2, s2, lid2, loc2,
           cur, ack, (remote w2), resp3, s3, lid3, loc3.
    repeat split; auto.
    rewrite T3, T2, T1. now rewrite <- !app_assoc.
  - intros e w1 H1. rewrite H1 in Hrun. now injection Hrun as <- <-.
  - intros u w1 e w2 H1 H2. rewrite H1, H2 in Hrun.
    now injection Hrun as <- <-.
Qed.

End Runs.

(** ** The claims at concrete load balancers *)

(** C1 at the negative drain scenario: A at weights 0, 0 and B at 10, 0,
    draining B. *)
Lemma drain_guard_fires_iff_others_offline_witness :
  let w := Sim.world Sim.a_drained in
  Sim.fetch "lb-1" w
  = (Ok (Scenarios.a_drained_snapshot, "lbl-1", "loc-1"),
     snd (Sim.fetch "lb-1" w)) /\
  let run := Sim.change "lb-1" "inst-B" 0 w in
  (fst run = Raise (OthersOffline "lb-1" "inst-B")
   <-> others_all_offline Scenarios.a_drained_snapshot "inst-B") /\
  (fst run = Raise (OthersOffline "lb-1" "inst-B") ->
   mutation_calls (trace (snd run)) = mutation_calls (trace w)) /\
  (other_still_online Scenarios.a_drained_snapshot "inst-B" ->
   fst run <> Raise (OthersOffline "lb-1" "inst-B")).
Proof.
  split; [reflexivity|].
  exact (drain_guard_fires_iff_others_offline
           Sim.Remote Sim.describe Sim.modify "lb-1" "inst-B"
           (Sim.world Sim.a_drained) Scenarios.a_drained_snapshot
           "lbl-1" "loc-1" _ eq_refl).
Defined.

(** The negative drain scenario, evaluated: rejected, nothing sent. *)
Example drain_rejected :
  let run := Sim.change "lb-1" "inst-B" 0 (Sim.world Sim.a_drained) in
  fst run = Raise (OthersOffline "lb-1" "inst-B") /\
  mutation_calls (trace (snd run)) = [].
Proof. split; reflexivity. Qed.

(** The positive one: with A at 10, 10 draining B goes through. *)
Example drain_accepted :
  let run := Sim.change "lb-1" "inst-B" 0
               (Sim.world
                  [ mkBackend "inst-A" "a" ["10.0.0.1"] 80 10;
                    mkBackend "inst-A" "a" ["10.0.0.1"] 443 10;
                    mkBackend "inst-B" "b" ["10.0.0.2"] 80 10;
                    mkBackend "inst-B" "b" ["10.0.0.2"] 443 0 ]) in
  fst run = Ok None /\
  mutation_calls (trace (snd run))
  = [mkBatchModifyTargetWeightRequest "lb-1"
       [mkRsWeightRule "lbl-1" "loc-1" 0
          [mkTarget "inst-B" 80; mkTarget "inst-B" 443]]].
Proof. split; reflexivity. Qed.

(** C2 at an instance already at weight 10, set to 10 again. *)
Lemma change_issues_one_uniform_mutation_witness :
  let w := Sim.world Sim.two_instances in
  let inst := mkTargetInstance "inst-A" "inst-A" "10.0.0.1"
                               [(80, 10); (443, 10)] in
  Sim.fetch "lb-1" w
  = (Ok (Scenarios.two_instances_snapshot, "lbl-1", "loc-1"),
     snd (Sim.fetch "lb-1" w)) /\
  (10 = 0 -> other_still_online Scenarios.two_instances_snapshot "inst-A") /\
  first_match Scenarios.two_instances_snapshot "inst-A" inst /\
  mutation_calls (trace (snd (Sim.change "lb-1" "inst-A" 10 w)))
  = mutation_calls (trace w)
    ++ [mkBatchModifyTargetWeightRequest "lb-1"
          [mkRsWeightRule "lbl-1" "loc-1" 10
             (map (fun p => mkTarget "inst-A" (fst p)) (iPorts inst))]].
Proof.
  intros w inst.
  assert (Hg : 10 = 0 ->
               other_still_online Scenarios.two_instances_snapshot "inst-A")
    by (intros H; discriminate H).
  assert (Hm : first_match Scenarios.two_instances_snapshot "inst-A" inst).
  { exists [], [mkTargetInstance "inst-B" "inst-B" "10.0.0.2"
                                 [(80, 10); (443, 10)]].
    repeat split; intros ? []. }
  split; [reflexivity|]. split; [exact Hg|]. split; [exact Hm|].
  exact (change_issues_one_uniform_mutation
           Sim.Remote Sim.describe Sim.modify "lb-1" "inst-A" 10 w
           Scenarios.two_instances_snapshot "lbl-1" "loc-1" _ inst
           eq_refl Hg Hm).
Defined.

(** C10, amended, at [shared_id]: the drain of ["ins-1"] targets port 80
    of the instance named ["node-a"] and not port 8080 of ["node-b"]. *)
Lemma change_targets_first_match_only_witness :
  let w := Sim.world Scenarios.shared_id in
  let inst := Scenarios.shared_id_first in
  let l2 := Scenarios.shared_id_rest in
  Sim.fetch "lb-1" w
  = (Ok ([] ++ inst :: l2, "lbl-1", "loc-1"), snd (Sim.fetch "lb-1" w)) /\
  iInstanceId inst = "ins-1" /\
  (forall i, In i [] -> iInstanceId i <> "ins-1") /\
  (0 = 0 -> other_still_online ([] ++ inst :: l2) "ins-1") /\
  exists rule,
    mutation_calls (trace (snd (Sim.change "lb-1" "ins-1" 0 w)))
    = mutation_calls (trace w)
      ++ [mkBatchModifyTargetWeightRequest "lb-1" [rule]] /\
    rTargets rule = map (fun p => mkTarget "ins-1" (fst p)) (iPorts inst) /\
    forall other q,
      In other l2 -> iInstanceId other = "ins-1" ->
      In q (iPorts other) ->
      (In (mkTarget "ins-1" (fst q)) (rTargets rule)
       <-> In (fst q) (map fst (iPorts inst))).
Proof.
  intros w inst l2.
  assert (Hno : forall i : TargetInstance,
             In i [] -> iInstanceId i <> "ins-1") by (intros ? []).
  assert (Hg : 0 = 0 -> other_still_online ([] ++ inst :: l2) "ins-1").
  { intros _.
    exists (mkTargetInstance "ins-2" "node-c" "10.0.0.3" [(80, 10)]),
           (80, 10).
    repeat split; simpl; auto; discriminate. }
  split; [reflexivity|]. split; [reflexivity|]. split; [exact Hno|].
  split; [exact Hg|].
  exact (change_targets_first_match_only
           Sim.Remote Sim.describe Sim.modify "lb-1" "ins-1" 0 w
           [] inst l2 "lbl-1" "loc-1" _ eq_refl eq_refl Hno Hg).
Defined.

(** The mutation call is made once also when the service then fails; the
    failure goes to the caller as it is. *)
Example mutation_fails :
  let run := _change_clb_instance_weight Sim.Remote Sim.describe
               Sim.modify_fails "lb-1" "inst-A" 10
               (Sim.world Sim.two_instances) in
  fst run = Raise (SDKException "InternalError") /\
  mutation_calls (trace (snd run))
  = [mkBatchModifyTargetWeightRequest "lb-1"
       [mkRsWeightRule "lbl-1" "loc-1" 10
          [mkTarget "inst-A" 80; mkTarget "inst-A" 443]]].
Proof. split; reflexivity. Qed.

(** C10 as stated fails: ["node-a"] and ["node-b"] bear the identifier
    ["ins-1"] and both serve port 80.  The drain of ["ins-1"] works on
    ["node-a"], the first match, and its one target, ["ins-1"] with port
    80, is a port recorded under ["node-b"] as well: a target names the
    identifier and the port number, nothing tells the two instances
    apart. *)
Lemma shared_port_of_other_instance_targeted :
  let w := Sim.world Scenarios.shared_port in
  let first := mkTargetInstance "ins-1" "node-a" "10.0.0.1" [(80, 10)] in
  let other := mkTargetInstance "ins-1" "node-b" "10.0.0.2"
                                [(80, 10); (8080, 10)] in
  let rule := mkRsWeightRule "lbl-1" "loc-1" 0 [mkTarget "ins-1" 80] in
  Sim.fetch "lb-1" w
  = (Ok (Scenarios.shared_port_snapshot, "lbl-1", "loc-1"),
     snd (Sim.fetch "lb-1" w)) /\
  Scenarios.shared_port_snapshot
  = [] ++ first
       :: [other; mkTargetInstance "ins-2" "node-c" "10.0.0.3" [(80, 10)]] /\
  iInstanceId first = "ins-1" /\
  iInstanceId other = "ins-1" /\
  iPrivateIpAddresses other <> iPrivateIpAddresses first /\
  In (80, 10) (iPorts other) /\
  mutation_calls (trace (snd (Sim.change "lb-1" "ins-1" 0 w)))
  = [mkBatchModifyTargetWeightRequest "lb-1" [rule]] /\
  In (mkTarget (iInstanceId other) (fst (80, 10))) (rTargets rule).
Proof.
  repeat split; try reflexivity.
  - discriminate.
  - now left.
  - now left.
Qed.

(** In the simulated load balancer the mutation reaches port 80 of both
    instances. *)
Example shared_port_drain :
  let run := Sim.change "lb-1" "ins-1" 0 (Sim.world Scenarios.shared_port) in
  fst (Sim.fetch "lb-1" (snd run))
  = Ok ([ mkTargetInstance "ins-1" "node-a" "10.0.0.1" [(80, 0)];
          mkTargetInstance "ins-1" "node-b" "10.0.0.2" [(80, 0); (8080, 10)];
          mkTargetInstance "ins-2" "node-c" "10.0.0.3" [(80, 10)] ],
        "lbl-1", "loc-1").
Proof. reflexivity. Qed.

Example shared_id_mutation :
  mutation_calls
    (trace (snd (Sim.change "lb-1" "ins-1" 0 (Sim.world Scenarios.shared_id))))
  = [mkBatchModifyTargetWeightRequest "lb-1"
       [mkRsWeightRule "lbl-1" "loc-1" 0 [mkTarget "ins-1" 80]]].
Proof. reflexivity. Qed.

(** C5 at a request for an identifier that the load balancer does not
    have, others being online: the not-found error. *)
Lemma change_absent_instance_raises_witness :
  let w := Sim.world Sim.two_instances in
  Sim.fetch "lb-1" w
  = (Ok (Scenarios.two_instances_snapshot, "lbl-1", "loc-1"),
     snd (Sim.fetch "lb-1" w)) /\
  no_match Scenarios.two_instances_snapshot "inst-C" /\
  let run := Sim.change "lb-1" "inst-C" 0 w in
  mutation_calls (trace (snd run)) = mutation_calls (trace w) /\
  (0 = 0 /\ all_offline Scenarios.two_instances_snapshot ->
   fst run = Raise (OthersOffline "lb-1" "inst-C")) /\
  (~ (0 = 0 /\ all_offline Scenarios.two_instances_snapshot) ->
   fst run = Raise (NoSuchInstance "lb-1" "inst-C")).
Proof.
  intros w.
  assert (Hno : no_match Scenarios.two_instances_snapshot "inst-C").
  { intros i [<-|[<-|[]]]; discriminate. }
  split; [reflexivity|]. split; [exact Hno|].
  exact (change_absent_instance_raises
           Sim.Remote Sim.describe Sim.modify "lb-1" "inst-C" 0 w
           Scenarios.two_instances_snapshot "lbl-1" "loc-1" _ eq_refl Hno).
Defined.

(** C5 as stated fails: a drain of an identifier that is not in the
    snapshot, every instance being at weight 0, raises the safety-guard
    error and not the not-found one. *)
Lemma absent_instance_drain_raises_guard_error :
  let w := Sim.world Scenarios.all_drained in
  Sim.fetch "lb-1" w
  = (Ok (Scenarios.all_drained_snapshot, "lbl-1", "loc-1"),
     snd (Sim.fetch "lb-1" w)) /\
  no_match Scenarios.all_drained_snapshot "inst-C" /\
  fst (Sim.change "lb-1" "inst-C" 0 w)
  = Raise (OthersOffline "lb-1" "inst-C") /\
  fst (Sim.change "lb-1" "inst-C" 0 w)
  <> Raise (NoSuchInstance "lb-1" "inst-C").
Proof.
  split; [reflexivity|]. split; [|split].
  - intros i [<-|[]]. discriminate.
  - reflexivity.
  - discriminate.
Qed.

(** C7 at the drain of [inst-A] in the two-instance scenario. *)
Lemma change_prints_acknowledgement_witness :
  let w := Sim.world Sim.two_instances in
  let w' := snd (Sim.change "lb-1" "inst-A" 0 w) in
  Sim.change "lb-1" "inst-A" 0 w = (Ok None, w') /\
  (@None BatchModifyTargetWeightResponse = None /\
   exists resp g1 req ack,
     Sim.describe (mkDescribeTargetsRequest "lb-1") (remote w)
     = (Answer resp, g1) /\
     Sim.modify req g1 = (Answer ack, remote w') /\
     trace w'
     = trace w
       ++ [CallDescribeTargets (mkDescribeTargetsRequest "lb-1");
           CallBatchModifyTargetWeight req;
           PrintResponse "接口返回" ack;
           PrintText "延时 3 秒等待生效..."]).
Proof.
  intros w w'. split; [reflexivity|].
  exact (change_prints_acknowledgement
           Sim.Remote Sim.describe Sim.modify "lb-1" "inst-A" 0 w None w'
           eq_refl).
Defined.

(** C7 as stated fails: the service acknowledges the mutation with
    ["req-1"], the weight changer succeeds, and what its caller gets is
    [None]. *)
Lemma change_returns_none_not_acknowledgement :
  let w := Sim.world Sim.two_instances in
  let req := mkBatchModifyTargetWeightRequest "lb-1"
               [mkRsWeightRule "lbl-1" "loc-1" 0
                  [mkTarget "inst-A" 80; mkTarget "inst-A" 443]] in
  let ack := mkBatchModifyTargetWeightResponse "req-1" in
  mutation_calls (trace (snd (Sim.change "lb-1" "inst-A" 0 w))) = [req] /\
  fst (Sim.modify req (remote w)) = Answer ack /\
  fst (Sim.change "lb-1" "inst-A" 0 w) = Ok None /\
  fst (Sim.change "lb-1" "inst-A" 0 w) <> Ok (Some ack).
Proof. repeat split; try reflexivity. discriminate. Qed.

(** C6: one listener with two rules.  The query raises before anything is
    aggregated, and the message gives 1, the number of listeners, where
    the number of rules, 2, was meant. *)
Theorem rules_count_message_names_listener_count :
  let resp := mkDescribeTargetsResponse
                (Some [mkListenerBackend "lbl-1"
                         (Some [mkRuleTargets "loc-1" Sim.two_instances;
                                mkRuleTargets "loc-2" []])]) in
  describe_targets_result resp = Raise (RulesCount 1) /\
  message (RulesCount 1) = "DescribeTargets 失败，Rules 数量为 1 != 1" /\
  message (RulesCount 1) <> message (RulesCount 2) /\
  Sim.fetch "lb-1" (mkWorld resp [])
  = (Raise (RulesCount 1),
     mkWorld resp [CallDescribeTargets (mkDescribeTargetsRequest "lb-1")]).
Proof. repeat split; try reflexivity. discriminate. Qed.

(** The sibling check, on the listeners, names the right count. *)
Lemma listeners_count_error resp listeners :
  Listeners resp = Some listeners -> List.length listeners <> 1%nat ->
  describe_targets_result resp
  = Raise (ListenersCount (List.length listeners)).
Proof.
  intros H Hn. unfold describe_targets_result. rewrite H.
  destruct (Nat.eqb_spec (List.length listeners) 1); [contradiction|].
  reflexivity.
Qed.

(** Whatever the number of rules, the message about them gives 1. *)
Lemma rules_count_error resp listener rules :
  Listeners resp = Some [listener] -> Rules listener = Some rules ->
  List.length rules <> 1%nat ->
  describe_targets_result resp = Raise (RulesCount 1).
Proof.
  intros H Hr Hn. unfold describe_targets_result. rewrite H. simpl.
  rewrite Hr.
  destruct (Nat.eqb_spec (List.length rules) 1); [contradiction|].
  reflexivity.
Qed.

(** C8 at the offline command on [inst-A] in the two-instance scenario. *)
Lemma operation_effects_witness :
  let w := Sim.world Sim.two_instances in
  let w' := snd (Sim.offline "lb-1" "inst-A" w) in
  let render := Sim.render in
  @run_operation Sim.Remote Sim.describe Sim.modify Sim.console Offline
                 "lb-1" "inst-A" w = (Ok tt, w') /\
  let q := mkDescribeTargetsRequest "lb-1" in
  (Ok tt = Ok tt ->
   exists resp1 g1 s1 lid1 loc1 resp2 g2 s2 lid2 loc2 cur ack g3
          resp3 s3 lid3 loc3,
     Sim.describe q (remote w) = (Answer resp1, g1) /\
     describe_targets_result resp1 = Ok (s1, lid1, loc1) /\
     Sim.describe q g1 = (Answer resp2, g2) /\
     describe_targets_result resp2 = Ok (s2, lid2, loc2) /\
     find_instance s2 "inst-A" = Some cur /\
     Sim.modify
       (batch_modify_request "lb-1" lid2 loc2 "inst-A"
          (map fst (iPorts cur)) (operation_weight Offline)) g2
     = (Answer ack, g3) /\
     Sim.describe q g3 = (Answer resp3, remote w') /\
     describe_targets_result resp3 = Ok (s3, lid3, loc3) /\
     trace w'
     = trace w
       ++ [CallDescribeTargets q;
           table_of "lb-1" s1;
           CallDescribeTargets q;
           CallBatchModifyTargetWeight
             (batch_modify_request "lb-1" lid2 loc2 "inst-A"
                (map fst (iPorts cur)) (operation_weight Offline));
           PrintResponse "接口返回" ack;
           PrintText "延时 3 秒等待生效...";
           Sleep 3;
           CallDescribeTargets q;
           table_of "lb-1" s3]) /\
  (forall e w1, render "lb-1" w = (Raise e, w1) ->
                Ok tt = Raise e /\ w' = w1) /\
  (forall u w1 e w2,
      render "lb-1" w = (Ok u, w1) ->
      Sim.change "lb-1" "inst-A" (operation_weight Offline) w1
      = (Raise e, w2) ->
      Ok tt = Raise e /\ w' = w2).
Proof.
  intros w w' render. split; [reflexivity|].
  exact (@operation_effects Sim.Remote Sim.describe Sim.modify Sim.console
           Offline "lb-1" "inst-A" w (Ok tt) w' eq_refl).
Defined.

(** C8 as stated fails: when the guard rejects the drain, the effects are
    the first render and the fetch of the weight changer; there is no
    sleep and no second render. *)
Lemma offline_rejected_stops_before_sleep :
  let q := mkDescribeTargetsRequest "lb-1" in
  let run := Sim.offline "lb-1" "inst-B" (Sim.world Sim.a_drained) in
  fst run = Raise (OthersOffline "lb-1" "inst-B") /\
  trace (snd run)
  = [CallDescribeTargets q;
     table_of "lb-1" Scenarios.a_drained_snapshot;
     CallDescribeTargets q] /\
  sleeps (trace (snd run)) = [].
Proof. repeat split; reflexivity. Qed.

(** The end-to-end scenario: after the offline command on [inst-A], its
    ports are at weight 0 in the second table and those of [inst-B] still
    at 10. *)
Example offline_end_to_end :
  let run := Sim.offline "lb-1" "inst-A" (Sim.world Sim.two_instances) in
  fst run = Ok tt /\
  sleeps (trace (snd run)) = [3] /\
  Sim.fetch "lb-1" (snd run)
  = (Ok ([ mkTargetInstance "inst-A" "inst-A" "10.0.0.1" [(80, 0); (443, 0)];
           mkTargetInstance "inst-B" "inst-B" "10.0.0.2"
                            [(80, 10); (443, 10)] ],
         "lbl-1", "loc-1"),
     snd (Sim.fetch "lb-1" (snd run))).
Proof. repeat split; reflexivity. Qed.

(** * Further properties *)

(** ** The aggregation: failure, conservation, non-empty groups *)

Lemma addresses_dec (targets : list Backend) :
  Forall has_address targets
  \/ Exists (fun t => PrivateIpAddresses t = []) targets.
Proof.
  induction targets as [|t rest [IH|IH]].
  - left. constructor.
  - destruct (PrivateIpAddresses t) as [|ip ips] eqn:Hip.
    + right. now left.
    + left. constructor; auto. unfold has_address. congruence.
  - right. now right.
Qed.

Lemma group_targets_no_address (targets : list Backend) :
  Exists (fun t => PrivateIpAddresses t = []) targets ->
  forall d0, group_targets targets d0 = Raise IndexError.
Proof.
  induction targets as [|t rest IH]; intros Hex d0.
  - inversion Hex.
  - simpl. destruct (PrivateIpAddresses t) as [|ip ips] eqn:Hip.
    + now rewrite (group_target_no_address t d0 Hip).
    + destruct (group_target_spec t d0 ip ips Hip) as (d1 & Hd1 & _).
      rewrite Hd1. apply IH. inversion Hex; subst; auto. congruence.
Qed.

Lemma aggregate_raises_index_error (targets : list Backend) (e : exn) :
  aggregate_targets targets = Raise e -> e = IndexError.
Proof.
  intros He. destruct (addresses_dec targets) as [Ha|Hex].
  - destruct (aggregate_targets_ok targets Ha) as (d & Hd & _). congruence.
  - unfold aggregate_targets in He.
    rewrite (group_targets_no_address targets Hex []) in He. congruence.
Qed.

(** X1. The aggregation returns a list exactly when every record has a
    private address.  Otherwise it raises [IndexError], whatever the
    records before the faulty one were, and it raises nothing else: the
    lookup [targets_by_ip[private_ip]] never misses its key. *)
Theorem aggregate_returns_iff_addresses (targets : list Backend) :
  ((exists out, aggregate_targets targets = Ok out)
   <-> Forall has_address targets) /\
  (aggregate_targets targets = Raise IndexError
   <-> Exists (fun t => PrivateIpAddresses t = []) targets) /\
  (forall e, aggregate_targets targets = Raise e -> e = IndexError).
Proof.
  assert (Hno : Exists (fun t => PrivateIpAddresses t = []) targets ->
                aggregate_targets targets = Raise IndexError).
  { intros Hex. unfold aggregate_targets.
    now rewrite (group_targets_no_address targets Hex []). }
  assert (Hyes : Forall has_address targets ->
                 exists out, aggregate_targets targets = Ok out).
  { intros Ha. destruct (aggregate_targets_ok targets Ha) as (d & Hd & _).
    eauto. }
  split; [|split].
  - split; auto. intros (out & Hout).
    destruct (addresses_dec targets) as [Ha|Hex]; auto.
    rewrite (Hno Hex) in Hout. discriminate.
  - split; auto. intros Hr.
    destruct (addresses_dec targets) as [Ha|Hex]; auto.
    destruct (Hyes Ha) as (out & Hout). congruence.
  - intros e He. destruct (addresses_dec targets) as [Ha|Hex].
    + destruct (Hyes Ha) as (out & Hout). congruence.
    + rewrite (Hno Hex) in He. congruence.
Qed.

Example aggregate_no_address :
  aggregate_targets Fixtures.no_address = Raise IndexError.
Proof. reflexivity. Qed.

Section Conservation.
Import Dict DictFacts.

Lemma setitem_new_values k v d :
  contains k d = false -> values (setitem k v d) = values d ++ [v].
Proof.
  induction d as [|[k' v'] d IH]; simpl; auto.
  destruct (String.eqb k' k); [discriminate|].
  intros H. simpl. now rewrite IH.
Qed.

Lemma setitem_append_ports k v p d :
  getitem k d = Some v ->
  Permutation (all_ports (values (setitem k (append_port v p) d)))
              (p :: all_ports (values d)).
Proof.
  unfold all_ports. induction d as [|[k' v'] d IH]; simpl; [discriminate|].
  destruct (String.eqb k' k).
  - intros [= ->]. simpl. rewrite <- app_assoc. simpl.
    apply Permutation_sym, Permutation_middle.
  - intros H. simpl.
    eapply perm_trans; [apply Permutation_app_head, IH, H|].
    apply Permutation_sym, Permutation_middle.
Qed.

Lemma group_target_ports t d0 d1 :
  group_target t d0 = Ok d1 ->
  Permutation (all_ports (values d1))
              ((Port t, Weight t) :: all_ports (values d0)).
Proof.
  unfold group_target.
  destruct (PrivateIpAddresses t) as [|ip ips]; [discriminate|].
  destruct (contains ip d0) eqn:Hc; simpl.
  - destruct (getitem ip d0) as [v|] eqn:Hg; [|discriminate].
    intros [= <-]. now apply setitem_append_ports.
  - rewrite getitem_setitem, String.eqb_refl. intros [= <-].
    eapply perm_trans.
    + apply setitem_append_ports.
      now rewrite getitem_setitem, String.eqb_refl.
    + constructor. rewrite (setitem_new_values _ _ _ Hc).
      unfold all_ports. rewrite flat_map_app. simpl.
      now rewrite app_nil_r.
Qed.

Lemma group_targets_ports targets :
  forall d0 d,
    group_targets targets d0 = Ok d ->
    Permutation (all_ports (values d))
                (all_ports (values d0)
                 ++ map (fun t => (Port t, Weight t)) targets).
Proof.
  induction targets as [|t rest IH]; intros d0 d; simpl.
  - intros [= <-]. now rewrite app_nil_r.
  - destruct (group_target t d0) as [d1|e] eqn:H1; [|discriminate].
    intros H. eapply perm_trans; [apply (IH _ _ H)|].
    eapply perm_trans;
      [apply Permutation_app_tail, (group_target_ports _ _ _ H1)|].
    simpl. apply Permutation_middle.
Qed.

End Conservation.

(** X2. Whenever the aggregation returns, the ports of its instances taken
    together are the (port, weight) pairs of the raw records, each as many
    times as the raw list has it: the grouping and the sort lose nothing,
    repeat nothing and invent nothing. *)
Theorem aggregate_conserves_ports (targets : list Backend)
    (out : list TargetInstance) :
  aggregate_targets targets = Ok out ->
  Permutation (all_ports out) (map (fun t => (Port t, Weight t)) targets).
Proof.
  unfold aggregate_targets.
  destruct (group_targets targets []) as [d|e] eqn:Hd; [|discriminate].
  intros [= <-].
  eapply perm_trans.
  - unfold all_ports. apply Permutation_flat_map, Permutation_sym, sorted_perm.
  - apply (group_targets_ports targets [] d Hd).
Qed.

Lemma aggregate_conserves_ports_witness :
  aggregate_targets Scenarios.same_names
  = Ok [ mkTargetInstance "ins-3" "db" "10.0.0.3" [(80, 10)];
         mkTargetInstance "ins-2" "web" "10.0.0.2" [(80, 10); (443, 10)];
         mkTargetInstance "ins-1" "web" "10.0.0.1" [(80, 10)] ] /\
  Permutation
    (all_ports
       [ mkTargetInstance "ins-3" "db" "10.0.0.3" [(80, 10)];
         mkTargetInstance "ins-2" "web" "10.0.0.2" [(80, 10); (443, 10)];
         mkTargetInstance "ins-1" "web" "10.0.0.1" [(80, 10)] ])
    (map (fun t => (Port t, Weight t)) Scenarios.same_names).
Proof.
  split; [reflexivity|].
  exact (aggregate_conserves_ports Scenarios.same_names _ eq_refl).
Defined.

(** An aggregated instance is never without ports. *)
Lemma aggregate_ports_nonempty (targets : list Backend)
    (out : list TargetInstance) :
  aggregate_targets targets = Ok out ->
  forall i, In i out -> iPorts i <> [].
Proof.
  intros Hout.
  assert (Ha : Forall has_address targets).
  { destruct (addresses_dec targets) as [Ha|Hex]; auto.
    unfold aggregate_targets in Hout.
    rewrite (group_targets_no_address targets Hex []) in Hout.
    discriminate. }
  destruct (aggregate_targets_ok targets Ha) as (d & Hd & Hnd & Hk & Hg).
  rewrite Hd in Hout. injection Hout as <-.
  intros i Hin. apply sorted_in in Hin.
  pose proof (values_getitem targets d i Hnd Hg Hin) as Hget.
  rewrite Hg in Hget. unfold grouped in Hget. simpl in Hget.
  destruct (find (has_first_ip (iPrivateIpAddresses i)) targets) as [t|] eqn:Hf;
    [|discriminate].
  injection Hget as <-. simpl. unfold ports_of.
  apply find_some in Hf as [Hin' Hp].
  assert (Hfl : In t (filter (has_first_ip (iPrivateIpAddresses i)) targets))
    by (apply filter_In; auto).
  destruct (filter (has_first_ip (iPrivateIpAddresses i)) targets);
    [inversion Hfl | discriminate].
Qed.

(** ** The query: when it succeeds *)

Lemma describe_targets_ok (resp : DescribeTargetsResponse)
    (snapshot : list TargetInstance) (lid loc : string) :
  describe_targets_result resp = Ok (snapshot, lid, loc)
  <-> exists listener rule,
        Listeners resp = Some [listener] /\
        Rules listener = Some [rule] /\
        aggregate_targets (Targets rule) = Ok snapshot /\
        lid = ListenerId listener /\ loc = LocationId rule.
Proof.
  unfold describe_targets_result. split.
  - destruct (Listeners resp) as [[|listener [|l2 ls]]|]; simpl;
      try discriminate.
    destruct (Rules listener) as [[|rule [|r2 rs]]|] eqn:Hr; simpl;
      try discriminate.
    destruct (aggregate_targets (Targets rule)) as [out|e] eqn:Ha;
      [|discriminate].
    intros [= <- <- <-]. exists listener, rule. auto.
  - intros (listener & rule & -> & Hr & Ha & -> & ->). simpl.
    now rewrite Hr, Ha.
Qed.

(** X3. The part of the query that follows the answer of the service
    returns exactly when the answer has one listener, this listener has
    one rule and the targets of the rule aggregate; what it returns is the
    aggregated list with the identifiers of that listener and that rule. *)
Theorem describe_targets_succeeds_iff (resp : DescribeTargetsResponse)
    (snapshot : list TargetInstance) (lid loc : string) :
  describe_targets_result resp = Ok (snapshot, lid, loc)
  <-> exists listener rule,
        Listeners resp = Some [listener] /\
        Rules listener = Some [rule] /\
        aggregate_targets (Targets rule) = Ok snapshot /\
        lid = ListenerId listener /\ loc = LocationId rule.
Proof. apply describe_targets_ok. Qed.

(** The exceptions of the query are those of its own checks and
    [IndexError]. *)
Lemma describe_targets_errors (resp : DescribeTargetsResponse) (e : exn) :
  describe_targets_result resp = Raise e ->
  e = ListenersIsNone \/ (exists n, e = ListenersCount n) \/
  e = RulesIsNone \/ (exists n, e = RulesCount n) \/ e = IndexError.
Proof.
  unfold describe_targets_result.
  destruct (Listeners resp) as [listeners|]; [|intros [= <-]; auto].
  destruct (negb (Nat.eqb (List.length listeners) 1));
    [intros [= <-]; right; left; eauto|].
  destruct listeners as [|listener ls]; [intros [= <-]; tauto|].
  destruct (Rules listener) as [rules|]; [|intros [= <-]; tauto].
  destruct (negb (Nat.eqb (List.length rules) 1));
    [intros [= <-]; right; right; right; left; eauto|].
  destruct rules as [|rule rs]; [intros [= <-]; tauto|].
  destruct (aggregate_targets (Targets rule)) as [out|e'] eqn:Ha;
    [discriminate|].
  intros [= <-]. rewrite (aggregate_raises_index_error _ _ Ha). tauto.
Qed.

(** ** Traces *)

Lemma sleeps_app tr1 tr2 : sleeps (tr1 ++ tr2) = sleeps tr1 ++ sleeps tr2.
Proof.
  induction tr1 as [|e tr1 IH]; simpl; auto.
  destruct e; simpl; now rewrite IH.
Qed.

Lemma fetches_app tr1 tr2 :
  fetches (tr1 ++ tr2) = fetches tr1 ++ fetches tr2.
Proof.
  induction tr1 as [|e tr1 IH]; simpl; auto.
  destruct e; simpl; now rewrite IH.
Qed.

Lemma printed_app tr1 tr2 :
  printed (tr1 ++ tr2) = printed tr1 ++ printed tr2.
Proof.
  induction tr1 as [|e tr1 IH]; simpl; auto.
  destruct e; simpl; now rewrite IH.
Qed.

Lemma app_one_more {A : Type} (l : list A) (x : A) : l <> l ++ [x].
Proof.
  intros H. apply (f_equal (@List.length A)) in H.
  rewrite length_app in H. simpl in H.
  rewrite Nat.add_comm in H. simpl in H.
  now apply n_Sn in H.
Qed.

(** Rewriting the traces of a goal down to the events that were added. *)
Ltac trace_simpl :=
  cbn [fst snd trace remote];
  rewrite ?mutation_calls_app, ?sleeps_app, ?fetches_app, ?printed_app;
  unfold table_of;
  cbn [mutation_calls sleeps fetches printed app];
  rewrite ?app_nil_r.

(** ** The render and the weight changer, on every run *)

Section MoreRuns.

Variable Remote : Type.
Variable DescribeTargets :
  DescribeTargetsRequest -> Remote -> reply DescribeTargetsResponse * Remote.
Variable BatchModifyTargetWeight :
  BatchModifyTargetWeightRequest -> Remote ->
  reply BatchModifyTargetWeightResponse * Remote.
Context {console : Console}.

Local Abbreviation fetch := (_req_describe_targets Remote DescribeTargets).
Local Abbreviation change :=
  (_change_clb_instance_weight Remote DescribeTargets BatchModifyTargetWeight).
Local Abbreviation render := (list_clb_targets Remote DescribeTargets).
Local Abbreviation command :=
  (run_operation Remote DescribeTargets BatchModifyTargetWeight).

(** What the fetch raises. *)
Lemma fetch_errors clb_id w e w1 :
  fetch clb_id w = (Raise e, w1) ->
  (exists code, e = SDKException code) \/
  e = ListenersIsNone \/ (exists n, e = ListenersCount n) \/
  e = RulesIsNone \/ (exists n, e = RulesCount n) \/ e = IndexError.
Proof.
  rewrite fetch_run.
  destruct (DescribeTargets _ (remote w)) as [[resp|code] g]; simpl.
  - intros [= H _]. right. now apply (describe_targets_errors resp).
  - intros [= <- _]. left. eauto.
Qed.

Lemma fetch_not_guard clb_id w e w1 c i :
  fetch clb_id w = (Raise e, w1) -> e <> OthersOffline c i.
Proof.
  intros H.
  destruct (fetch_errors _ _ _ _ H)
    as [ [? ->] | [ -> | [ [? ->] | [ -> | [ [? ->] | -> ] ] ] ] ];
    discriminate.
Qed.

(** A snapshot that the fetch returned comes from an aggregation. *)
Lemma fetch_snapshot clb_id w snapshot lid loc w1 :
  fetch clb_id w = (Ok (snapshot, lid, loc), w1) ->
  exists resp listener rule,
    DescribeTargets (mkDescribeTargetsRequest clb_id) (remote w)
    = (Answer resp, remote w1) /\
    Listeners resp = Some [listener] /\
    Rules listener = Some [rule] /\
    aggregate_targets (Targets rule) = Ok snapshot /\
    lid = ListenerId listener /\ loc = LocationId rule.
Proof.
  rewrite fetch_run.
  destruct (DescribeTargets _ (remote w)) as [[resp|code] g] eqn:Hd;
    simpl; [|discriminate].
  intros [= H <-]. simpl.
  apply describe_targets_ok in H as (l & r & H).
  exists resp, l, r. tauto.
Qed.


Lemma change_trace_shape clb_id instance_id weight w :
  let run := change clb_id instance_id weight w in
  fetches (trace (snd run))
  = fetches (trace w) ++ [mkDescribeTargetsRequest clb_id] /\
  (mutation_calls (trace (snd run)) = mutation_calls (trace w) \/
   exists req,
     mutation_calls (trace (snd run)) = mutation_calls (trace w) ++ [req]) /\
  sleeps (trace (snd run)) = sleeps (trace w).
Proof.
  intros run. subst run.
  destruct (fetch clb_id w) as [[[[snapshot lid] loc]|e] w1] eqn:Hf;
    pose proof (fetch_trace _ _ _ _ _ _ Hf) as Ht.
  - rewrite (change_run _ _ _ _ _ _ _ _ _ _ _ Hf).
    destruct ((weight =? 0) && scan_instances snapshot instance_id true);
      [cbn [fst snd]; rewrite Ht; trace_simpl; auto|].
    destruct (find_instance snapshot instance_id) as [cur|];
      [|cbn [fst snd]; rewrite Ht; trace_simpl; auto].
    cbv zeta.
    destruct (BatchModifyTargetWeight _ (remote w1)) as [[ack|code] g];
      cbn [fst snd trace]; rewrite Ht; trace_simpl;
      rewrite <- ?app_assoc; (split; [reflexivity|]);
      (split; [right; eauto | reflexivity]).
  - rewrite (change_fetch_raise _ _ _ _ _ _ _ _ _ Hf).
    cbn [fst snd]. rewrite Ht. trace_simpl. auto.
Qed.

(** X5. A run of the weight changer, whatever the service answers and
    whatever the request: exactly one query for targets, at most one
    mutation call, and no sleep (the notice about the delay is printed
    here, the delay itself is left to the caller). *)
Theorem change_calls clb_id instance_id weight w :
  let run := change clb_id instance_id weight w in
  fetches (trace (snd run))
  = fetches (trace w) ++ [mkDescribeTargetsRequest clb_id] /\
  (mutation_calls (trace (snd run)) = mutation_calls (trace w) \/
   exists req,
     mutation_calls (trace (snd run)) = mutation_calls (trace w) ++ [req]) /\
  sleeps (trace (snd run)) = sleeps (trace w).
Proof. exact (change_trace_shape clb_id instance_id weight w). Qed.


Lemma change_not_guard clb_id instance_id weight w :
  weight <> 0 ->
  forall c i,
    fst (change clb_id instance_id weight w) <> Raise (OthersOffline c i).
Proof.
  intros Hw c i.
  destruct (fetch clb_id w) as [[[[snapshot lid] loc]|e] w1] eqn:Hf.
  - rewrite (change_run _ _ _ _ _ _ _ _ _ _ _ Hf).
    destruct (Z.eqb_spec weight 0) as [Hz|_]; [contradiction|]. simpl.
    destruct (find_instance snapshot instance_id) as [cur|];
      [|discriminate].
    cbv zeta.
    destruct (BatchModifyTargetWeight _ (remote w1)) as [[ack|code] g];
      discriminate.
  - rewrite (change_fetch_raise _ _ _ _ _ _ _ _ _ Hf). simpl.
    intros [= He]. now apply (fetch_not_guard _ _ _ _ c i Hf).
Qed.

(** X7. A request that is no drain is never rejected by the safety guard,
    whatever the weights in the load balancer: an instance can be put back
    online when every instance is offline. *)
Theorem non_drain_never_guarded clb_id instance_id weight w :
  weight <> 0 ->
  forall c i,
    fst (change clb_id instance_id weight w) <> Raise (OthersOffline c i).
Proof. exact (change_not_guard clb_id instance_id weight w). Qed.

(** X8. The safety invariant, read from the mutation: when a drain request
    makes a mutation call, the snapshot it had fetched held an instance
    with another identifier and a port whose weight is not 0. *)
Theorem drain_mutation_requires_other_online
    clb_id instance_id w snapshot lid loc w1 :
  fetch clb_id w = (Ok (snapshot, lid, loc), w1) ->
  mutation_calls (trace (snd (change clb_id instance_id 0 w)))
  <> mutation_calls (trace w) ->
  other_still_online snapshot instance_id.
Proof.
  intros Hf. pose proof (fetch_trace _ _ _ _ _ _ Hf) as Ht.
  rewrite (change_run _ _ _ _ _ _ _ _ _ _ _ Hf). simpl andb.
  destruct (scan_instances snapshot instance_id true) eqn:Hs.
  - cbn [fst snd]. rewrite Ht. trace_simpl. congruence.
  - intros _. now apply scan_instances_false.
Qed.

(** X9. When the query fails, by a fault of the service or by a topology
    that is not one listener with one rule, the weight changer raises the
    exception of the query and has made no mutation call and printed
    nothing. *)
Theorem change_stops_on_failed_query clb_id instance_id weight w e w1 :
  fetch clb_id w = (Raise e, w1) ->
  let run := change clb_id instance_id weight w in
  fst run = Raise e /\
  mutation_calls (trace (snd run)) = mutation_calls (trace w) /\
  printed (trace (snd run)) = printed (trace w).
Proof.
  intros Hf run. subst run.
  pose proof (fetch_trace _ _ _ _ _ _ Hf) as Ht.
  rewrite (change_fetch_raise _ _ _ _ _ _ _ _ _ Hf).
  cbn [fst snd]. rewrite Ht. trace_simpl. auto.
Qed.

(** X10. When the service answers the mutation call with a fault, the
    weight changer raises it as the client's exception; the call is in
    the trace and nothing has been printed, neither an acknowledgement
    nor the notice about the delay. *)
Theorem change_mutation_fault
    clb_id instance_id weight w snapshot lid loc w1 cur code g :
  fetch clb_id w = (Ok (snapshot, lid, loc), w1) ->
  (weight = 0 -> other_still_online snapshot instance_id) ->
  first_match snapshot instance_id cur ->
  BatchModifyTargetWeight
    (batch_modify_request clb_id lid loc instance_id
       (map fst (iPorts cur)) weight) (remote w1)
  = (Fault code, g) ->
  let run := change clb_id instance_id weight w in
  fst run = Raise (SDKException code) /\
  remote (snd run) = g /\
  mutation_calls (trace (snd run))
  = mutation_calls (trace w)
    ++ [batch_modify_request clb_id lid loc instance_id
          (map fst (iPorts cur)) weight] /\
  printed (trace (snd run)) = printed (trace w).
Proof.
  intros Hf Hg Hm Hb run. subst run.
  pose proof (fetch_trace _ _ _ _ _ _ Hf) as Ht.
  rewrite (change_run _ _ _ _ _ _ _ _ _ _ _ Hf).
  assert (Hguard : (weight =? 0)
                   && scan_instances snapshot instance_id true = false).
  { destruct (Z.eqb_spec weight 0) as [Hz|Hz]; auto. simpl.
    now apply scan_instances_false, Hg. }
  rewrite Hguard. apply find_instance_some in Hm. rewrite Hm.
  cbv zeta. rewrite Hb. cbn [fst snd trace remote]. rewrite Ht.
  trace_simpl. auto.
Qed.

(** X11. Every mutation call of the weight changer is well formed: it is
    addressed to the load balancer of the request, its one rule names the
    listener and the rule of the answer that the same run fetched and
    carries the requested weight, and its target list is not empty and
    bears the requested identifier on every target. *)
Theorem change_mutation_well_formed clb_id instance_id weight w req :
  mutation_calls (trace (snd (change clb_id instance_id weight w)))
  = mutation_calls (trace w) ++ [req] ->
  exists resp g1 listener rule targets,
    DescribeTargets (mkDescribeTargetsRequest clb_id) (remote w)
    = (Answer resp, g1) /\
    Listeners resp = Some [listener] /\
    Rules listener = Some [rule] /\
    req = mkBatchModifyTargetWeightRequest clb_id
            [mkRsWeightRule (ListenerId listener) (LocationId rule)
                            weight targets] /\
    targets <> [] /\
    Forall (fun t => tInstanceId t = instance_id) targets.
Proof.
  destruct (fetch clb_id w) as [[[[snapshot lid] loc]|e] w1] eqn:Hf;
    pose proof (fetch_trace _ _ _ _ _ _ Hf) as Ht.
  - rewrite (change_run _ _ _ _ _ _ _ _ _ _ _ Hf).
    destruct ((weight =? 0) && scan_instances snapshot instance_id true).
    { cbn [fst snd]. rewrite Ht. trace_simpl. intros H.
      now apply app_one_more in H. }
    destruct (find_instance snapshot instance_id) as [cur|] eqn:Hc.
    2:{ cbn [fst snd]. rewrite Ht. trace_simpl. intros H.
        now apply app_one_more in H. }
    cbv zeta.
    assert (Hreq :
      mutation_calls (trace w)
      ++ [batch_modify_request clb_id lid loc instance_id
            (map fst (iPorts cur)) weight]
      = mutation_calls (trace w) ++ [req] ->
      exists resp g1 listener rule targets,
        DescribeTargets (mkDescribeTargetsRequest clb_id) (remote w)
        = (Answer resp, g1) /\
        Listeners resp = Some [listener] /\
        Rules listener = Some [rule] /\
        req = mkBatchModifyTargetWeightRequest clb_id
                [mkRsWeightRule (ListenerId listener) (LocationId rule)
                                weight targets] /\
        targets <> [] /\
        Forall (fun t => tInstanceId t = instance_id) targets).
    { intros H. apply app_inv_head in H. injection H as <-.
      destruct (fetch_snapshot _ _ _ _ _ _ Hf)
        as (resp & listener & rule & Hd & Hl & Hr & Ha & -> & ->).
      apply find_instance_some in Hc as (l1 & l2 & Hs & _ & _).
      assert (Hin : In cur snapshot)
        by (rewrite Hs; apply in_or_app; right; now left).
      pose proof (aggregate_ports_nonempty _ _ Ha cur Hin) as Hne.
      exists resp, (remote w1), listener, rule. eexists.
      split; [exact Hd|]. split; [exact Hl|]. split; [exact Hr|].
      split; [reflexivity|]. split.
      - destruct (iPorts cur); [congruence | discriminate].
      - apply Forall_forall. intros t Hin'.
        apply in_map_iff in Hin' as (port & <- & _). reflexivity. }
    destruct (BatchModifyTargetWeight _ (remote w1)) as [[ack|code] g];
      cbn [fst snd trace]; rewrite Ht; trace_simpl; rewrite <- ?app_assoc;
      exact Hreq.
  - rewrite (change_fetch_raise _ _ _ _ _ _ _ _ _ Hf).
    cbn [fst snd]. rewrite Ht. trace_simpl. intros H.
    now apply app_one_more in H.
Qed.

(** A render adds a query and at most a table to the trace. *)
Lemma render_quiet clb_id w r w' :
  render clb_id w = (r, w') ->
  mutation_calls (trace w') = mutation_calls (trace w) /\
  sleeps (trace w') = sleeps (trace w) /\
  exists evs, trace w' = trace w ++ evs.
Proof.
  rewrite render_run.
  destruct (fetch clb_id w) as [[[[snapshot lid] loc]|e] w1] eqn:Hf;
    pose proof (fetch_trace _ _ _ _ _ _ Hf) as Ht;
    [destruct (refusal (table_of clb_id snapshot))|];
    intros [= _ <-]; cbn [trace]; rewrite ?Ht; trace_simpl;
    rewrite <- ?app_assoc; eauto.
Qed.

(** What a render raises is what its fetch raised, or the refusal of the
    console. *)
Lemma render_raises clb_id w e w' :
  render clb_id w = (Raise e, w') ->
  fetch clb_id w = (Raise e, w') \/ exists text, e = MarkupError text.
Proof.
  rewrite render_run.
  destruct (fetch clb_id w) as [[[[snapshot lid] loc]|e'] w1].
  - destruct (refusal (table_of clb_id snapshot)) as [text|];
      [|discriminate].
    intros [= <- _]. right. eauto.
  - intros [= -> ->]. now left.
Qed.

Lemma render_not_guard clb_id w e w' c i :
  render clb_id w = (Raise e, w') -> e <> OthersOffline c i.
Proof.
  intros H. apply render_raises in H as [H|[text ->]]; [|discriminate].
  now apply (fetch_not_guard _ _ _ _ c i H).
Qed.

(** X12. A run of the online or of the offline command, whatever the
    service answers, makes at most one mutation call.  It sleeps at most
    once, for 3, and only right after a mutation call, the print of its
    acknowledgement and the notice about the delay: a run that was
    rejected or that failed does not wait. *)
Theorem operation_calls op clb_id instance_id w :
  let run := command op clb_id instance_id w in
  (mutation_calls (trace (snd run)) = mutation_calls (trace w) \/
   exists req,
     mutation_calls (trace (snd run)) = mutation_calls (trace w) ++ [req]) /\
  (sleeps (trace (snd run)) = sleeps (trace w) \/
   sleeps (trace (snd run)) = sleeps (trace w) ++ [3] /\
   exists req ack pre post,
     mutation_calls (trace (snd run)) = mutation_calls (trace w) ++ [req] /\
     trace (snd run)
     = trace w ++ pre
       ++ [CallBatchModifyTargetWeight req;
           PrintResponse "接口返回" ack;
           PrintText "延时 3 秒等待生效...";
           Sleep 3] ++ post).
Proof.
  intros run. subst run. rewrite run_operation_steps.
  destruct (render clb_id w) as [[u1|e1] w1] eqn:H1;
    destruct (render_quiet _ _ _ _ H1) as (M1 & S1 & evs1 & T1).
  2:{ cbn [fst snd]. rewrite M1, S1. auto. }
  destruct (change clb_id instance_id (operation_weight op) w1)
    as [[r2|e2] w2] eqn:H2.
  2:{ pose proof (change_trace_shape clb_id instance_id
                    (operation_weight op) w1) as H.
      rewrite H2 in H. cbn [fst snd] in H. destruct H as (_ & M2 & S2).
      cbn [fst snd]. rewrite S2, S1. split; auto.
      rewrite <- M1. exact M2. }
  apply change_success in H2
    as (_ & resp & g1 & snapshot & lid & loc & cur & ack
        & _ & _ & _ & _ & T2).
  destruct (render clb_id (mkWorld (remote w2) (trace w2 ++ [Sleep 3])))
    as [r3 w3] eqn:H3.
  destruct (render_quiet _ _ _ _ H3) as (M3 & S3 & evs3 & T3).
  cbn [trace] in M3, S3, T3. cbn [fst snd].
  assert (Hm : mutation_calls (trace w3)
               = mutation_calls (trace w)
                 ++ [batch_modify_request clb_id lid loc instance_id
                       (map fst (iPorts cur)) (operation_weight op)]).
  { rewrite M3, T2. trace_simpl. now rewrite M1. }
  split; [right; eauto|]. right. split.
  - rewrite S3, T2. trace_simpl. now rewrite S1.
  - eexists. exists ack,
      (evs1 ++ [CallDescribeTargets (mkDescribeTargetsRequest clb_id)]),
      evs3.
    split; [exact Hm|].
    rewrite T3, T2, T1. rewrite <- !app_assoc. reflexivity.
Qed.

(** X13. The online command never fails by the safety guard, whatever the
    weights in the load balancer. *)
Theorem online_never_guarded clb_id instance_id w c i :
  fst (online_clb_instance Remote DescribeTargets BatchModifyTargetWeight
         clb_id instance_id w)
  <> Raise (OthersOffline c i).
Proof.
  change (online_clb_instance Remote DescribeTargets BatchModifyTargetWeight)
    with (command Online).
  rewrite run_operation_steps.
  destruct (render clb_id w) as [[u1|e1] w1] eqn:H1.
  2:{ cbn [fst]. intros [= ->].
      now apply (render_not_guard _ _ _ _ c i H1). }
  pose proof (change_not_guard clb_id instance_id 10 w1) as Hc.
  cbn [operation_weight].
  destruct (change clb_id instance_id 10 w1) as [[r2|e2] w2] eqn:H2.
  2:{ cbn [fst] in *. intros [= ->].
      apply (Hc ltac:(discriminate) c i). reflexivity. }
  destruct (render clb_id (mkWorld (remote w2) (trace w2 ++ [Sleep 3])))
    as [[u3|e3] w3] eqn:H3; cbn [fst]; [discriminate|].
  intros [= ->]. now apply (render_not_guard _ _ _ _ c i H3).
Qed.

End MoreRuns.

(** ** The targets table *)

Lemma prefix_empty (s : string) : String.prefix "" s = true.
Proof. now destruct s. Qed.

Section Tables.

Variable Remote : Type.
Variable DescribeTargets :
  DescribeTargetsRequest -> Remote -> reply DescribeTargetsResponse * Remote.
Context {console : Console}.

(** The cells of the targets table, read through the columns. *)
Lemma table_of_cells clb_id snapshot :
  table_of clb_id snapshot
  = PrintTable ("CLB 「" ++ clb_id ++ "」 后端列表")%string
      ["InstanceId"; "InstanceName"; "PrivateIpAddresses";
       "PortsAmount"; "Port[Weight] List"]
      (map instance_cells snapshot).
Proof. unfold table_of. rewrite map_map. do 4 f_equal. Qed.


End Tables.

(** ** The list of load balancers *)



Example list_two_clbs :
  map clb_cells Fixtures.two_clbs
  = [["lb-1"; "1.2.3.4"; "1"; "front"]; ["lb-2"; "5.6.7.8"; "0"; "back"]].
Proof. reflexivity. Qed.

(** ** The configuration file *)

Section ConfigFacts.

Variable Json : Type.
Variable json_load : string -> option Json.
Variable current xdg : string.



End ConfigFacts.


(** A malformed file in the current directory, a valid one in the XDG
    directory: the error about JSON. *)
Example read_config_no_fallback :
  fst (read_config nat Fixtures.parse Fixtures.current_path
         Fixtures.xdg_path Fixtures.both_files)
  = inl ConfigNotJson.
Proof. reflexivity. Qed.

(** A file in the current directory that does not open, a valid one in
    the XDG directory: the error of [open], and the second file is not
    looked at. *)
Example read_config_unreadable :
  read_config nat Fixtures.parse Fixtures.current_path
    Fixtures.xdg_path Fixtures.current_unreadable
  = (inl (OSError "Permission denied"),
     [IsFile Fixtures.current_path; OpenFile Fixtures.current_path]).
Proof. reflexivity. Qed.

(** ** The further properties at concrete load balancers *)

(** X7 at a load balancer with everything drained. *)
Lemma non_drain_never_guarded_witness :
  10 <> 0 /\
  forall c i,
    fst (Sim.change "lb-1" "inst-A" 10 (Sim.world Scenarios.all_drained))
    <> Raise (OthersOffline c i).
Proof.
  assert (H : 10 <> 0) by discriminate.
  split; [exact H|].
  exact (non_drain_never_guarded Sim.Remote Sim.describe Sim.modify
           "lb-1" "inst-A" 10 (Sim.world Scenarios.all_drained) H).
Defined.

Example online_from_all_drained :
  let run := Sim.online "lb-1" "inst-A" (Sim.world Scenarios.all_drained) in
  fst run = Ok tt /\
  mutation_calls (trace (snd run))
  = [mkBatchModifyTargetWeightRequest "lb-1"
       [mkRsWeightRule "lbl-1" "loc-1" 10 [mkTarget "inst-A" 80]]].
Proof. split; reflexivity. Qed.

(** X8 at the drain of [inst-A] in the two-instance scenario. *)
Lemma drain_mutation_requires_other_online_witness :
  let w := Sim.world Sim.two_instances in
  Sim.fetch "lb-1" w
  = (Ok (Scenarios.two_instances_snapshot, "lbl-1", "loc-1"),
     snd (Sim.fetch "lb-1" w)) /\
  mutation_calls (trace (snd (Sim.change "lb-1" "inst-A" 0 w)))
  <> mutation_calls (trace w) /\
  other_still_online Scenarios.two_instances_snapshot "inst-A".
Proof.
  intros w.
  assert (H : mutation_calls (trace (snd (Sim.change "lb-1" "inst-A" 0 w)))
              <> mutation_calls (trace w)) by discriminate.
  split; [reflexivity|]. split; [exact H|].
  exact (drain_mutation_requires_other_online
           Sim.Remote Sim.describe Sim.modify "lb-1" "inst-A" w
           Scenarios.two_instances_snapshot "lbl-1" "loc-1" _ eq_refl H).
Defined.

(** X9 at a load balancer with two listeners. *)
Lemma change_stops_on_failed_query_witness :
  let w := mkWorld Fixtures.two_listeners [] in
  Sim.fetch "lb-1" w = (Raise (ListenersCount 2), snd (Sim.fetch "lb-1" w)) /\
  let run := Sim.change "lb-1" "inst-A" 0 w in
  fst run = Raise (ListenersCount 2) /\
  mutation_calls (trace (snd run)) = mutation_calls (trace w) /\
  printed (trace (snd run)) = printed (trace w).
Proof.
  intros w. split; [reflexivity|].
  exact (change_stops_on_failed_query
           Sim.Remote Sim.describe Sim.modify "lb-1" "inst-A" 0 w
           (ListenersCount 2) _ eq_refl).
Defined.

(** X10 at a service that refuses the mutation. *)
Lemma change_mutation_fault_witness :
  let w := Sim.world Sim.two_instances in
  let cur := mkTargetInstance "inst-A" "inst-A" "10.0.0.1"
                              [(80, 10); (443, 10)] in
  let req := batch_modify_request "lb-1" "lbl-1" "loc-1" "inst-A"
               (map fst (iPorts cur)) 10 in
  Sim.fetch "lb-1" w
  = (Ok (Scenarios.two_instances_snapshot, "lbl-1", "loc-1"),
     snd (Sim.fetch "lb-1" w)) /\
  (10 = 0 -> other_still_online Scenarios.two_instances_snapshot "inst-A") /\
  first_match Scenarios.two_instances_snapshot "inst-A" cur /\
  Sim.modify_fails req (remote (snd (Sim.fetch "lb-1" w)))
  = (Fault "InternalError", Sim.single_rule Sim.two_instances) /\
  let run := _change_clb_instance_weight Sim.Remote Sim.describe
               Sim.modify_fails "lb-1" "inst-A" 10 w in
  fst run = Raise (SDKException "InternalError") /\
  remote (snd run) = Sim.single_rule Sim.two_instances /\
  mutation_calls (trace (snd run)) = mutation_calls (trace w) ++ [req] /\
  printed (trace (snd run)) = printed (trace w).
Proof.
  intros w cur req.
  assert (Hg : 10 = 0 ->
               other_still_online Scenarios.two_instances_snapshot "inst-A")
    by (intros H; discriminate H).
  assert (Hm : first_match Scenarios.two_instances_snapshot "inst-A" cur).
  { exists [], [mkTargetInstance "inst-B" "inst-B" "10.0.0.2"
                                 [(80, 10); (443, 10)]].
    repeat split; intros ? []. }
  split; [reflexivity|]. split; [exact Hg|]. split; [exact Hm|].
  split; [reflexivity|].
  exact (change_mutation_fault
           Sim.Remote Sim.describe Sim.modify_fails "lb-1" "inst-A" 10 w
           Scenarios.two_instances_snapshot "lbl-1" "loc-1" _ cur
           "InternalError" _ eq_refl Hg Hm eq_refl).
Defined.

(** X11 at the drain of [inst-A] in the two-instance scenario. *)
Lemma change_mutation_well_formed_witness :
  let w := Sim.world Sim.two_instances in
  let req := mkBatchModifyTargetWeightRequest "lb-1"
               [mkRsWeightRule "lbl-1" "loc-1" 0
                  [mkTarget "inst-A" 80; mkTarget "inst-A" 443]] in
  mutation_calls (trace (snd (Sim.change "lb-1" "inst-A" 0 w)))
  = mutation_calls (trace w) ++ [req] /\
  exists resp g1 listener rule targets,
    Sim.describe (mkDescribeTargetsRequest "lb-1") (remote w)
    = (Answer resp, g1) /\
    Listeners resp = Some [listener] /\
    Rules listener = Some [rule] /\
    req = mkBatchModifyTargetWeightRequest "lb-1"
            [mkRsWeightRule (ListenerId listener) (LocationId rule)
                            0 targets] /\
    targets <> [] /\
    Forall (fun t => tInstanceId t = "inst-A") targets.
Proof.
  intros w req. split; [reflexivity|].
  exact (change_mutation_well_formed
           Sim.Remote Sim.describe Sim.modify "lb-1" "inst-A" 0 w req
           eq_refl).
Defined.


(** A name that holds a closing tag with nothing to close: the console
    refuses the table, the render raises and prints nothing, and the
    offline command ends there, before any mutation call. *)
Example render_refused :
  let w := Sim.world Fixtures.closing_tag_name in
  let text := "closing tag '[/red]' at position 3 doesn't match any open tag" in
  Sim.render "lb-1" w
  = (Raise (MarkupError text),
     mkWorld (Sim.single_rule Fixtures.closing_tag_name)
       [CallDescribeTargets (mkDescribeTargetsRequest "lb-1")]) /\
  Sim.offline "lb-1" "inst-A" w = Sim.render "lb-1" w.
Proof. split; reflexivity. Qed.

Example a_drained_rows :
  map instance_cells Scenarios.a_drained_snapshot
  = [ ["inst-A"; "a"; "10.0.0.1"; "2";
       "[bold red]80[0][/bold red] [bold red]443[0][/bold red]"];
      ["inst-B"; "b"; "10.0.0.2"; "2";
       "[green]80[10][/green] [bold red]443[0][/bold red]"] ].
Proof. reflexivity. Qed.

(** ** The table renderer *)

Lemma row_get_absent (column : string) (row_data : list (string * string)) :
  ~ In column (map fst row_data) -> row_get column row_data = "None".
Proof.
  induction row_data as [|[k v] rest IH]; simpl; auto.
  intros H. destruct (String.eqb_spec k column) as [->|_].
  - exfalso. apply H. now left.
  - apply IH. intros Hin. apply H. now right.
Qed.

